(** * icloudfetch: the incremental sync engine of [run.py] and [run_year_month.py]

    A shallow embedding of the download loop: the hashing helpers, the
    timestamp reset, the resume cursor kept in [last_downloaded.txt], the
    retry loop with its exponential backoff and the rate-limit counter.

    Conventions of the model.
    - The local store is a finite map from path strings to files; two
      different strings name two different files (no links, no case folding,
      no normalisation of [..]), and directories are not represented.
    - The cursor file [TRACK_FILE] is a component of its own: it is assumed
      not to be aliased by a download path.
    - Library calls ([os.rename], [os.remove], [os.utime], [os.path.join],
      [open]) follow their POSIX behaviour; they raise only where that
      behaviour says so on the modelled store.  Transient faults come from
      the network stream of a download.
    - Times are integers, in microseconds since the epoch (the resolution of
      a Python [datetime]); the conversion to float seconds is not modelled.
    - [KeyboardInterrupt] is not an [Exception]: no handler of the loop
      catches it.  The state keeps a trail of every disk state the run passes
      through, which is what an interrupt can leave behind.
    - Strings are byte strings; [str.strip] removes ASCII white space.
    - The two scripts share the loop and differ in the path of an item
      ([Layout]) and in the wording of one log line, taken from [run.py].
      [icloud_downloader.py] is the same loop without cursor and time zone;
      its own [reset_file_timestamp] is modelled beside the other one.
    - [authenticate] runs on a terminal of its own: the keyring, the lines
      of the standard input, the log.  The session object of pyicloud is an
      interface ([Cloud]) whose calls may raise; [exit()] ends a call with
      [SystemExit], which [except Exception] does not catch.
    - The progress bar is not part of the model. *)

From Stdlib Require Import ZArith Lia.
From Stdlib.Strings Require Import Byte Ascii.
From stdpp Require Import base strings list gmap pretty.

Abbreviation bytes := (list Byte.byte).

(** ** hashlib.md5, as an interface *)

(** The streaming hasher of [hashlib]: feeding two chunks one after the other
    is feeding their concatenation. *)
Class Hasher := {
  hasher : Type;
  md5_new : hasher;
  md5_update : hasher → bytes → hasher;
  md5_hexdigest : hasher → string;
  md5_update_app : ∀ h a b, md5_update (md5_update h a) b = md5_update h (a ++ b);
  md5_update_nil : ∀ h, md5_update h [] = h
}.

(** The digest of a whole byte string. *)
Definition md5 `{Hasher} (data : bytes) : string :=
  md5_hexdigest (md5_update md5_new data).

(** ** datetime and pytz *)

(** A [datetime]: the wall clock reading in microseconds and, for an aware
    value, the UTC offset of its [tzinfo] (also in microseconds). *)
Record datetime := { wall : Z; tzinfo : option Z }.

Inductive platform := Linux | Darwin | Windows.

(** What the host provides: [platform.system()], the zones known to
    [pytz.timezone] (a zone maps a UTC instant to its offset), the offset the
    C library assumes for a naive wall clock reading, [datetime.strftime], and
    whether the tool that sets a creation time ([SetFile] on macOS,
    [win32_setctime] on Windows) runs successfully. *)
Class Host := {
  platform_system : platform;
  pytz_timezone : string → option (Z → Z);
  local_utcoffset : Z → Z;
  strftime : datetime → string → string;
  ctime_tool_runs : bool
}.

(** [pytz.UTC.localize]: the same wall clock reading, declared to be UTC. *)
Definition localize_utc (dt : datetime) : datetime :=
  {| wall := wall dt; tzinfo := Some 0%Z |}.

Definition dt_utcoffset `{Host} (dt : datetime) : Z :=
  match tzinfo dt with
  | Some off => off
  | None => local_utcoffset (wall dt)
  end.

(** [datetime.timestamp()], in microseconds. *)
Definition dt_timestamp `{Host} (dt : datetime) : Z :=
  (wall dt - dt_utcoffset dt)%Z.

(** [datetime.astimezone(tz)]: the same instant read on the clock of [tz]. *)
Definition astimezone `{Host} (dt : datetime) (tz : Z → Z) : datetime :=
  let utc := dt_timestamp dt in
  {| wall := (utc + tz utc)%Z; tzinfo := Some (tz utc) |}.

(** ** The module-level constants *)

Class Constants := {
  RATE_LIMIT : Z;
  TIME_WINDOW : Z;
  MAX_RETRIES : nat;
  INITIAL_WAIT : Z;
  MAX_WAIT : Z
}.

(** The values written in the three scripts. *)
Definition shipped_constants : Constants :=
  {| RATE_LIMIT := 100; TIME_WINDOW := 0; MAX_RETRIES := 5;
     INITIAL_WAIT := 1; MAX_WAIT := 60 |}.

Definition exponential_backoff `{Constants} (attempt : nat) : Z :=
  Z.min (INITIAL_WAIT * 2 ^ Z.of_nat attempt) MAX_WAIT.

(** ** Remote items *)

Record photo := {
  filename : string;
  size : Z;
  added_date : datetime
}.

(** What one call of [photo.download().iter_content(chunk_size)] delivers: the
    chunks received, the error that ends the stream (if any), and the time of
    the system clock while the file is written. *)
Record response := {
  chunks : list bytes;
  failure : option string;
  written_at : Z
}.

(** The bytes a response carries (an empty keep-alive chunk adds nothing). *)
Definition payload (r : response) : bytes := concat (chunks r).

(** ** The local store *)

Record file := {
  f_data : bytes;
  f_atime : Z;
  f_mtime : Z;
  f_birth : Z
}.

Inductive event :=
  | LogInfo (msg : string)
  | LogError (msg : string)
  | Sleep (seconds : Z).

(** The state the loop threads: the store, the content of [TRACK_FILE] (absent
    when the file does not exist), the rate-limit counter, what was logged and
    slept, and the trail of disk states (newest first). *)
Record state := {
  fs : gmap string file;
  track_file : option string;
  requests_made : Z;
  events : list event;
  trail : list (gmap string file * option string)
}.

Definition set_fs (m : gmap string file) (s : state) : state :=
  {| fs := m; track_file := track_file s; requests_made := requests_made s;
     events := events s; trail := (m, track_file s) :: trail s |}.

Definition set_track (t : option string) (s : state) : state :=
  {| fs := fs s; track_file := t; requests_made := requests_made s;
     events := events s; trail := (fs s, t) :: trail s |}.

Definition set_requests (n : Z) (s : state) : state :=
  {| fs := fs s; track_file := track_file s; requests_made := n;
     events := events s; trail := trail s |}.

Definition emit (e : event) (s : state) : state :=
  {| fs := fs s; track_file := track_file s; requests_made := requests_made s;
     events := events s ++ [e]; trail := trail s |}.

(** ** Computations that may raise *)

Inductive outcome (A : Type) :=
  | Done (a : A)
  | Raised (e : string).
Arguments Done {A} a.
Arguments Raised {A} e.

Definition M (A : Type) : Type := state → outcome A * state.

Definition ret {A} (a : A) : M A := λ s, (Done a, s).

Definition bind {A B} (m : M A) (k : A → M B) : M B :=
  λ s, match m s with
       | (Done a, s') => k a s'
       | (Raised e, s') => (Raised e, s')
       end.

Definition raise {A} (e : string) : M A := λ s, (Raised e, s).

(** [try: m  except Exception as e: handler e] *)
Definition try_except {A} (m : M A) (handler : string → M A) : M A :=
  λ s, match m s with
       | (Done a, s') => (Done a, s')
       | (Raised e, s') => handler e s'
       end.

Definition modify (f : state → state) : M unit := λ s, (Done tt, f s).
Definition gets {A} (f : state → A) : M A := λ s, (Done (f s), s).

Notation "'let*' x ':=' m 'in' k" := (bind m (λ x, k))
  (at level 10, x name, m at level 100, k at level 200).
Notation "m >> k" := (bind m (λ _, k))
  (at level 100, k at level 200, right associativity).

Definition logging_info (msg : string) : M unit := modify (emit (LogInfo msg)).
Definition logging_error (msg : string) : M unit := modify (emit (LogError msg)).
Definition time_sleep (seconds : Z) : M unit := modify (emit (Sleep seconds)).

(** ** Paths *)

Fixpoint ends_with_slash (s : string) : bool :=
  match s with
  | EmptyString => false
  | String a EmptyString => bool_decide (a = "/"%char)
  | String _ rest => ends_with_slash rest
  end.

(** [os.path.join a b] (posixpath): an absolute [b] replaces [a]. *)
Definition os_path_join (a b : string) : string :=
  match b with
  | String "/" _ => b
  | _ => if bool_decide (a = "") || ends_with_slash a then a +:+ b
         else a +:+ "/" +:+ b
  end.

Definition download_directory : string := "downloaded_files".
Definition BASE_DOWNLOAD_DIRECTORY : string := "downloaded_files".

(** [run_year_month.py]; [os.makedirs] has no effect on a store without
    directories. *)
Definition create_directory_for_photo `{Host} (p : photo) : string :=
  let date_taken := added_date p in
  let year := strftime date_taken "%Y" in
  let month := strftime date_taken "%m" in
  os_path_join (os_path_join BASE_DOWNLOAD_DIRECTORY year) month.

(** Where an item is stored: the one place where the loops of [run.py] and
    [run_year_month.py] differ. *)
Class Layout := { photo_path : photo → string }.

Definition flat_layout : Layout :=
  {| photo_path p := os_path_join download_directory (filename p) |}.

Definition year_month_layout `{Host} : Layout :=
  {| photo_path p := os_path_join (create_directory_for_photo p) (filename p) |}.

(** ** str.strip *)

Definition py_isspace (a : Ascii.ascii) : bool :=
  let n := Ascii.nat_of_ascii a in
  (Nat.eqb n 32 || (Nat.leb 9 n && Nat.leb n 13) || (Nat.leb 28 n && Nat.leb n 31)).

Fixpoint lstrip (s : string) : string :=
  match s with
  | EmptyString => EmptyString
  | String a rest => if py_isspace a then lstrip rest else s
  end.

Definition strip (s : string) : string :=
  String.rev (lstrip (String.rev (lstrip s))).

(** ** Filesystem calls *)

Definition os_path_exists (path : string) : M bool :=
  gets (λ s, bool_decide (is_Some (fs s !! path))).

(** [open(path, 'wb')]: creates the file, or truncates the one there. *)
Definition open_wb (path : string) (now : Z) : M unit :=
  modify (λ s,
    let f := match fs s !! path with
             | Some old => {| f_data := []; f_atime := f_atime old;
                              f_mtime := now; f_birth := f_birth old |}
             | None => {| f_data := []; f_atime := now; f_mtime := now;
                          f_birth := now |}
             end in
    set_fs (<[path := f]> (fs s)) s).

Definition append_data (chunk : bytes) (now : Z) (f : file) : file :=
  {| f_data := f_data f ++ chunk; f_atime := f_atime f; f_mtime := now;
     f_birth := f_birth f |}.

(** [file.write(chunk)] on the file opened at [path]. *)
Definition file_write (path : string) (now : Z) (chunk : bytes) : M unit :=
  modify (λ s, set_fs (alter (append_data chunk now) path (fs s)) s).

Definition os_remove (path : string) : M unit :=
  λ s, match fs s !! path with
       | Some _ => (Done tt, set_fs (delete path (fs s)) s)
       | None => (Raised "FileNotFoundError", s)
       end.

(** [os.rename src dst]: one step; [dst] is replaced if it exists. *)
Definition os_rename (src dst : string) : M unit :=
  λ s, match fs s !! src with
       | Some f => (Done tt, set_fs (<[dst := f]> (delete src (fs s))) s)
       | None => (Raised "FileNotFoundError", s)
       end.

Definition os_utime (path : string) (atime mtime : Z) : M unit :=
  λ s, match fs s !! path with
       | Some f => (Done tt,
                    set_fs (<[path := {| f_data := f_data f; f_atime := atime;
                                         f_mtime := mtime; f_birth := f_birth f |}]>
                              (fs s)) s)
       | None => (Raised "FileNotFoundError", s)
       end.

(** Setting the creation time, by [SetFile -d] or [setctime]. *)
Definition set_birth_time `{Host} (path : string) (birth : Z) : M unit :=
  λ s, if ctime_tool_runs then
         match fs s !! path with
         | Some f => (Done tt,
                      set_fs (<[path := {| f_data := f_data f; f_atime := f_atime f;
                                           f_mtime := f_mtime f; f_birth := birth |}]>
                                (fs s)) s)
         | None => (Raised "FileNotFoundError", s)
         end
       else (Raised "CalledProcessError", s).

(** ** calculate_file_hash *)

Definition chunk_size : N := 1024 * 1024.

(** [while chunk := file.read(n)]: the successive reads of at most [n] bytes,
    up to the first empty one. *)
Fixpoint read_chunks (fuel n : nat) (data : bytes) : list bytes :=
  match fuel with
  | O => []
  | S fuel' =>
      match data with
      | [] => []
      | _ => take n data :: read_chunks fuel' n (drop n data)
      end
  end.

Definition calculate_file_hash `{Hasher} (file_path : string) : M string :=
  let* found := gets (λ s, fs s !! file_path) in
  match found with
  | None => raise "FileNotFoundError"
  | Some f =>
      let chunks := read_chunks (length (f_data f)) (N.to_nat chunk_size) (f_data f) in
      ret (md5_hexdigest (fold_left md5_update chunks md5_new))
  end.

(** ** download_file_with_progress *)

(** The body of [for chunk in ...: if chunk: file.write(chunk);
    hasher.update(chunk)] (the progress bar is presentation only). *)
Fixpoint write_chunks `{Hasher} (file_path : string) (now : Z)
    (cs : list bytes) (h : hasher) : M hasher :=
  match cs with
  | [] => ret h
  | chunk :: rest =>
      match chunk with
      | [] => write_chunks file_path now rest h
      | _ => file_write file_path now chunk >>
             write_chunks file_path now rest (md5_update h chunk)
      end
  end.

Definition download_file_with_progress `{Hasher} (p : photo) (file_path : string)
    (r : response) : M string :=
  open_wb file_path (written_at r) >>
  let* h := write_chunks file_path (written_at r) (chunks r) md5_new in
  match failure r with
  | Some e => raise e
  | None => ret (md5_hexdigest h)
  end.

(** ** reset_file_timestamp *)

Definition lookup_timezone `{Host} (name : string) : M (Z → Z) :=
  match pytz_timezone name with
  | Some tz => ret tz
  | None => raise "UnknownTimeZoneError"
  end.

Definition reset_file_timestamp `{Host} (file_path : string) (timestamp : datetime)
    (timezone : string) : M unit :=
  try_except
    (let timestamp :=
       match tzinfo timestamp with
       | None => localize_utc timestamp
       | Some _ => timestamp
       end in
     let* local_tz := lookup_timezone timezone in
     let local_timestamp := astimezone timestamp local_tz in
     let mod_time := dt_timestamp local_timestamp in
     os_utime file_path mod_time mod_time >>
     match platform_system with
     | Darwin =>
         (* SetFile reads the date to the second *)
         set_birth_time file_path (mod_time / 1000000 * 1000000)
     | Windows => set_birth_time file_path mod_time
     | Linux => ret tt
     end)
    (λ e, logging_error ("Failed to set timestamps for " +:+ file_path +:+ ": " +:+ e)).

(** The default of the [timezone] argument; no caller passes another one. *)
Definition default_timezone : string := "UTC".

(** ** The resume cursor *)

Definition load_last_downloaded : M (option string) :=
  gets (λ s, strip <$> track_file s).

(** [open(TRACK_FILE, 'w')] empties the file; the name reaches it at the
    close of the [with] block. *)
Definition save_last_downloaded (photo_name : string) : M unit :=
  modify (set_track (Some "")) >> modify (set_track (Some photo_name)).

(** ** The sync engine *)

Section Engine.
Context `{Hasher} `{Host} `{Constants} `{Layout}.

(** The rate limiting logic that follows [requests_made += 1]. *)
Definition rate_limit : M unit :=
  modify (λ s, set_requests (requests_made s + 1) s) >>
  let* n := gets requests_made in
  if bool_decide (RATE_LIMIT ≤ n)%Z then
    (if bool_decide (0 < TIME_WINDOW)%Z then
       logging_info ("Rate limit reached. Sleeping for " +:+ pretty TIME_WINDOW
                       +:+ " seconds...") >>
       time_sleep TIME_WINDOW
     else ret tt) >>
    modify (set_requests 0)
  else ret tt.

(** The body of the [try] block for one attempt on one item.  The branch of
    an identical local file leaves by its own [break]: the steps after the
    [if] are not run for it. *)
Definition attempt_body (p : photo) (r : response) : M unit :=
  let photo_name := filename p in
  let photo_path := photo_path p in
  let* present := os_path_exists photo_path in
  let* left_early :=
    (if present then
       let* local_file_hash := calculate_file_hash photo_path in
       let temp_file_path := photo_path +:+ ".temp" in
       let* icloud_file_hash := download_file_with_progress p temp_file_path r in
       if bool_decide (local_file_hash = icloud_file_hash) then
         logging_info (photo_name +:+ " is already up-to-date, skipping download.") >>
         reset_file_timestamp photo_path (added_date p) default_timezone >>
         os_remove temp_file_path >>
         ret true
       else
         logging_info (photo_name +:+
                       " exists but differs from the iCloud version. Updating file.") >>
         os_rename temp_file_path photo_path >>
         ret false
     else
       download_file_with_progress p photo_path r >>
       ret false) in
  if (left_early : bool) then ret tt
  else
    reset_file_timestamp photo_path (added_date p) default_timezone >>
    save_last_downloaded photo_name >>
    rate_limit.

(** The [except Exception] branch: what to do after a failed attempt.
    [Some n] asks for attempt [n]; [None] leaves the retry loop. *)
Definition on_failure (p : photo) (attempt : nat) (e : string) : M (option nat) :=
  logging_error ("An error occurred while processing " +:+ filename p +:+ ": " +:+ e) >>
  let attempt := S attempt in
  if bool_decide (attempt < MAX_RETRIES)%nat then
    let wait_time := exponential_backoff attempt in
    logging_info ("Retrying in " +:+ pretty wait_time +:+ " seconds...") >>
    time_sleep wait_time >>
    ret (Some attempt)
  else
    logging_error ("Max retries reached for " +:+ filename p +:+ ". Skipping file.") >>
    ret None.

(** [while attempt < MAX_RETRIES: try: ... except Exception: ...].  The
    attempts of an item draw their responses from [net]. *)
Fixpoint retry_loop (fuel attempt : nat) (p : photo) (net : nat → response) : M unit :=
  match fuel with
  | O => ret tt
  | S fuel' =>
      if bool_decide (attempt < MAX_RETRIES)%nat then
        let* next := try_except (attempt_body p (net attempt) >> ret None)
                                (on_failure p attempt) in
        match next with
        | Some attempt' => retry_loop fuel' attempt' p net
        | None => ret tt
        end
      else ret tt
  end.

(** One iteration of [for photo in photos] past the skip test. *)
Definition process_photo (p : photo) (net : nat → response) : M unit :=
  retry_loop MAX_RETRIES 0 p net.

(** [for photo in photos], with the skip flag of the resume cursor. *)
Fixpoint sync_loop (skip : bool) (last_downloaded : option string)
    (jobs : list (photo * (nat → response))) : M unit :=
  match jobs with
  | [] => ret tt
  | (p, net) :: rest =>
      if skip then
        if bool_decide (Some (filename p) = last_downloaded)
        then sync_loop false last_downloaded rest
        else sync_loop true last_downloaded rest
      else
        process_photo p net >> sync_loop false last_downloaded rest
  end.

(** The run: [process_photos] of [run_year_month.py], the module body of
    [run.py]. *)
Definition process_photos (jobs : list (photo * (nat → response))) : M unit :=
  logging_info ("Found " +:+ pretty (length jobs) +:+ " items in iCloud.") >>
  let* last_downloaded := load_last_downloaded in
  let skip := bool_decide (last_downloaded ≠ None) in
  modify (set_requests 0) >>
  sync_loop skip last_downloaded jobs.

(** The state a run ends in. *)
Definition run (jobs : list (photo * (nat → response))) (s : state) : state :=
  (process_photos jobs s).2.
End Engine.

(** ** reset_file_timestamp of [icloud_downloader.py] *)

(** The first script has its own [reset_file_timestamp]: no time zone, no
    creation time; a naive timestamp is read by [datetime.timestamp] as
    local time. *)
Module Downloader.
Definition reset_file_timestamp `{Host} (file_path : string) (timestamp : datetime)
    : M unit :=
  try_except
    (let mod_time := dt_timestamp timestamp in
     os_utime file_path mod_time mod_time)
    (λ e, logging_error ("Failed to set file timestamp for " +:+ file_path +:+ ": " +:+ e)).
End Downloader.

(** ** authenticate *)

(** What [authenticate] works on: the passwords the keyring holds for the
    service [icloud], by account; the lines [input] has still to read and the
    prompts it has shown; whether the session directory exists; what was
    logged; and the logins attempted, as (account, password). *)
Record terminal := {
  keyring : gmap string string;
  stdin : list string;
  asked : list string;
  session_dir : bool;
  logged : list event;
  logins : list (string * string)
}.

(** The session object of pyicloud, as far as [authenticate] uses it.  Every
    call may raise; [validate_2fa_code] changes the object. *)
Class Cloud := {
  service : Type;
  PyiCloudService : string → string → outcome service;
  requires_2fa : service → outcome bool;
  validate_2fa_code : service → string → outcome (bool * service);
  is_trusted_session : service → outcome bool
}.

(** How a call ends: with a value, with an [Exception], or with the
    [SystemExit] of [exit()], which [except Exception] does not catch. *)
Inductive ending (A : Type) :=
  | Returned (a : A)
  | Excepted (e : string)
  | Exited.
Arguments Returned {A} a.
Arguments Excepted {A} e.
Arguments Exited {A}.

Definition Login (A : Type) : Type := terminal → ending A * terminal.

Definition login_ret {A} (a : A) : Login A := λ t, (Returned a, t).

Definition login_bind {A B} (m : Login A) (k : A → Login B) : Login B :=
  λ t, match m t with
       | (Returned a, t') => k a t'
       | (Excepted e, t') => (Excepted e, t')
       | (Exited, t') => (Exited, t')
       end.

(** [try: m  except Exception as e: handler e] *)
Definition login_try {A} (m : Login A) (handler : string → Login A) : Login A :=
  λ t, match m t with
       | (Excepted e, t') => handler e t'
       | other => other
       end.

(** [exit()] *)
Definition sys_exit {A} : Login A := λ t, (Exited, t).

(** The result of a call into pyicloud. *)
Definition call {A} (r : outcome A) : Login A :=
  λ t, match r with
       | Done a => (Returned a, t)
       | Raised e => (Excepted e, t)
       end.

Definition log (e : event) : Login unit :=
  λ t, (Returned tt,
        {| keyring := keyring t; stdin := stdin t; asked := asked t;
           session_dir := session_dir t; logged := logged t ++ [e];
           logins := logins t |}).

(** [input(prompt)]: the next line of the standard input; [EOFError] when
    there is none. *)
Definition input (prompt : string) : Login string :=
  λ t, let t' := {| keyring := keyring t; stdin := tail (stdin t);
                    asked := asked t ++ [prompt]; session_dir := session_dir t;
                    logged := logged t; logins := logins t |} in
       match stdin t with
       | line :: _ => (Returned line, t')
       | [] => (Excepted "EOF when reading a line", t')
       end.

(** [if not os.path.exists(session_dir): os.makedirs(session_dir)] *)
Definition ensure_session_dir : Login unit :=
  λ t, (Returned tt,
        {| keyring := keyring t; stdin := stdin t; asked := asked t;
           session_dir := true; logged := logged t; logins := logins t |}).

Definition keyring_get_password (username : string) : Login (option string) :=
  λ t, (Returned (keyring t !! username), t).

Definition keyring_set_password (username password : string) : Login unit :=
  λ t, (Returned tt,
        {| keyring := <[username := password]> (keyring t); stdin := stdin t;
           asked := asked t; session_dir := session_dir t; logged := logged t;
           logins := logins t |}).

(** [not password], for what [keyring.get_password] returns. *)
Definition no_password (password : option string) : bool :=
  match password with
  | None => true
  | Some pw => bool_decide (pw = "")
  end.

Declare Scope login_scope.
Delimit Scope login_scope with login.
Notation "'let*' x ':=' m 'in' k" := (login_bind m (λ x, k))
  (at level 10, x name, m at level 100, k at level 200) : login_scope.
Notation "m >> k" := (login_bind m (λ _, k))
  (at level 100, k at level 200, right associativity) : login_scope.

Section Authentication.
Context `{Cloud}.


(** The constructor call, with its place in the record of logins. *)
Definition login (apple_id password : string) : Login service :=
  λ t, call (PyiCloudService apple_id password)
         {| keyring := keyring t; stdin := stdin t; asked := asked t;
            session_dir := session_dir t; logged := logged t;
            logins := logins t ++ [(apple_id, password)] |}.

(** [authenticate] of [run.py]. *)
Definition authenticate : Login service :=
  (login_try
    (ensure_session_dir >>
     let* apple_id := input "Enter the email for Apple ID: " in
     let* stored := keyring_get_password apple_id in
     let* password :=
       (if no_password stored then
          let* password := input ("Enter the password for " +:+ apple_id +:+ ": ") in
          keyring_set_password apple_id password >>
          login_ret password
        else login_ret (default "" stored)) in
     let* icloud := login apple_id password in
     log (LogInfo "Checking for 2FA") >>
     let* needs_code := call (requires_2fa icloud) in
     let* icloud :=
       (if (needs_code : bool) then
          log (LogInfo "Two-factor authentication required.") >>
          let* code :=
            input "Enter the code you received on one of your approved devices: " in
          let* validated := call (validate_2fa_code icloud code) in
          if validated.1 then
            log (LogInfo "Two-factor authentication successful.") >>
            login_ret validated.2
          else
            log (LogError "Failed to verify two-factor authentication code.") >>
            sys_exit
        else login_ret icloud) in
     log (LogInfo "Checking for Trusted Session") >>
     let* trusted := call (is_trusted_session icloud) in
     if (trusted : bool) then
       log (LogInfo "Successfully authenticated.") >>
       login_ret icloud
     else
       log (LogError "Failed to authenticate. Check your credentials and try again.") >>
       sys_exit)
    (λ e, log (LogError ("An error occurred during authentication: " +:+ e)) >>
          sys_exit))%login.
End Authentication.

(** ** What the model is run on *)

(** A hasher to compute with: it keeps the bytes fed to it, and prints them. *)
Definition string_of_bytes (data : bytes) : string :=
  String.string_of_list_byte data.

Definition plain_hasher : Hasher.
Proof.
  refine {| hasher := bytes; md5_new := []; md5_update h c := h ++ c;
            md5_hexdigest := string_of_bytes |}.
  - intros h a b. by rewrite <-(assoc_L (++)).
  - intros h. by rewrite (right_id_L [] (++)).
Defined.

(** A Linux host which knows the zone UTC. *)
Definition linux_host : Host :=
  {| platform_system := Linux;
     pytz_timezone name := if bool_decide (name = "UTC") then Some (λ _, 0%Z) else None;
     local_utcoffset _ := 0%Z;
     strftime _ _ := "";
     ctime_tool_runs := true |}.

(** Nothing on disk, no cursor file. *)
Definition empty_state : state :=
  {| fs := ∅; track_file := None; requests_made := 0; events := []; trail := [] |}.

(** The durations slept, in order. *)
Definition sleeps (evs : list event) : list Z :=
  omap (λ e, match e with Sleep n => Some n | _ => None end) evs.

(** Sample data for running the model. *)
Definition bytes_of_string (text : string) : bytes := String.list_byte_of_string text.

Definition complete (text : string) : response :=
  {| chunks := [bytes_of_string text]; failure := None; written_at := 7 |}.

Definition two_chunks (a b : string) : response :=
  {| chunks := [bytes_of_string a; bytes_of_string b]; failure := None; written_at := 7 |}.

Definition broken : response :=
  {| chunks := [bytes_of_string "xx"]; failure := Some "ConnectionError";
     written_at := 8 |}.

Definition item (name : string) : photo :=
  {| filename := name; size := 3; added_date := {| wall := 1000; tzinfo := None |} |}.

Definition stored (text : string) : file :=
  {| f_data := bytes_of_string text; f_atime := 1; f_mtime := 1; f_birth := 1 |}.

Definition disk_with (files : list (string * file)) (cursor : option string) : state :=
  {| fs := list_to_map files; track_file := cursor; requests_made := 0;
     events := []; trail := [] |}.

(** A sample account service: one account, whose session asks for a code
    and is trusted once the code is validated. *)
Definition sample_cloud : Cloud :=
  {| service := bool;
     PyiCloudService apple_id password :=
       if bool_decide (password = "secret") then Done false
       else Raised "Invalid email/password combination.";
     requires_2fa trusted := Done (negb trusted);
     validate_2fa_code trusted code :=
       if bool_decide (code = "123456") then Done (true, true) else Done (false, trusted);
     is_trusted_session trusted := Done trusted |}.

(** A terminal with the given lines to read and an empty keyring. *)
Definition fresh_terminal (lines : list string) : terminal :=
  {| keyring := ∅; stdin := lines; asked := []; session_dir := false;
     logged := []; logins := [] |}.

(** A host whose [strftime] gives a year and a month. *)
Definition dated_host : Host :=
  {| platform_system := Linux;
     pytz_timezone name := if bool_decide (name = "UTC") then Some (λ _, 0%Z) else None;
     local_utcoffset _ := 3600000000%Z;
     strftime _ format := if bool_decide (format = "%Y") then "2024" else "05";
     ctime_tool_runs := true |}.

(** ** Notions used in the statements *)

(** Every disk state recorded between [s] and [s'] satisfies [I]. *)
Definition passes (I : gmap string file * option string → Prop) (s s' : state) : Prop :=
  ∃ new, trail s' = new ++ trail s ∧ Forall I new.

(** The file a download leaves at its path once [data] has been written. *)
Definition landed (old : option file) (now : Z) (data : bytes) : file :=
  {| f_data := data;
     f_atime := from_option f_atime now old;
     f_mtime := now;
     f_birth := from_option f_birth now old |}.

(** The instant a declared timestamp denotes once a naive one is read as UTC. *)
Definition declared_instant (ts : datetime) : Z :=
  match tzinfo ts with
  | None => wall ts
  | Some off => wall ts - off
  end%Z.

(** The state the [except] branch leaves when another attempt follows. *)
Definition retrying `{Constants} (p : photo) (attempt : nat) (e : string) (s : state) : state :=
  emit (Sleep (exponential_backoff (S attempt)))
    (emit (LogInfo ("Retrying in " +:+ pretty (exponential_backoff (S attempt))
                      +:+ " seconds..."))
       (emit (LogError ("An error occurred while processing " +:+ filename p
                          +:+ ": " +:+ e)) s)).

(** The state it leaves when the item is given up. *)
Definition given_up (p : photo) (e : string) (s : state) : state :=
  emit (LogError ("Max retries reached for " +:+ filename p +:+ ". Skipping file."))
    (emit (LogError ("An error occurred while processing " +:+ filename p
                       +:+ ": " +:+ e)) s).

(** The items the loop of a run gets to process: all of them without a
    cursor, otherwise those after the first item that carries the cursor's
    name. *)
Fixpoint pending {A} (skip : bool) (last_downloaded : option string)
    (jobs : list (photo * A)) : list (photo * A) :=
  match jobs with
  | [] => []
  | (p, a) :: rest =>
      if skip then
        if bool_decide (Some (filename p) = last_downloaded) then rest
        else pending true last_downloaded rest
      else jobs
  end.

(** The state in which the loop over the listing starts. *)
Definition loop_start {A} (jobs : list A) (s : state) : state :=
  set_requests 0
    (emit (LogInfo ("Found " +:+ pretty (length jobs) +:+ " items in iCloud.")) s).



(** Constants with a rate limit that shows: a pause of 5 seconds after every
    counted item. *)
Definition throttled_constants : Constants :=
  {| RATE_LIMIT := 1; TIME_WINDOW := 5; MAX_RETRIES := 5;
     INITIAL_WAIT := 1; MAX_WAIT := 60 |}.

(** A response without its empty keep-alive chunks. *)
Definition without_keep_alive (r : response) : response :=
  {| chunks := filter (λ c, c ≠ []) (chunks r); failure := failure r;
     written_at := written_at r |}.


(** A path that [os.path.join] takes as absolute. *)
Definition is_absolute (s : string) : bool :=
  match s with
  | String "/" _ => true
  | _ => false
  end.

(** The counter of committed items is in range. *)
Definition counter_in_range `{Constants} (s : state) : Prop :=
  (0 ≤ requests_made s < Z.max RATE_LIMIT 1)%Z.

(** The pauses a run may make: the pause of the rate limit, and the waits
    of the backoff before the attempts 1 to [MAX_RETRIES - 1]. *)
Definition scheduled_pause `{Constants} (w : Z) : Prop :=
  (w = TIME_WINDOW ∧ 0 < TIME_WINDOW)%Z ∨
  ∃ n, (1 ≤ n < MAX_RETRIES)%nat ∧ w = exponential_backoff n.

(** The pauses of [b] are those of [a] followed by scheduled ones. *)
Definition pauses_added `{Constants} (a b : state) : Prop :=
  ∃ extra, sleeps (events b) = sleeps (events a) ++ extra ∧ Forall scheduled_pause extra.

(** A computation of [authenticate] that relates every terminal to the one
    it leaves. *)
Definition respects {A} (R : terminal → terminal → Prop) (m : Login A) : Prop :=
  ∀ t, R t (m t).2.

(** A computation of [authenticate] that has logged an error last whenever
    it ends by [exit()]. *)
Definition exits_after_error {A} (m : Login A) : Prop :=
  ∀ t, (m t).1 = Exited → ∃ msg, last (logged (m t).2) = Some (LogError msg).

(** What the steps after the login leave alone: the keyring and the record
    of logins; the only prompt they show is the one for the code. *)
Definition signed_in (a b : terminal) : Prop :=
  keyring b = keyring a ∧ logins b = logins a ∧
  ∀ q, q ∈ asked b →
       q ∈ asked a ∨ q = "Enter the code you received on one of your approved devices: ".

(** * Properties of the helpers *)

Lemma string_length_app (a b : string) :
  String.length (a +:+ b) = (String.length a + String.length b)%nat.
Proof.
  induction a as [|c a IH]; [done|].
  change (String c a +:+ b) with (String c (a +:+ b)).
  cbn [String.length]. by rewrite IH.
Qed.

Lemma temp_of_ne (path : string) : path +:+ ".temp" ≠ path.
Proof.
  intros E. apply (f_equal String.length) in E.
  rewrite string_length_app in E. cbn in E. lia.
Qed.

Lemma alter_Some {A} (g : A → A) (m : gmap string A) i x :
  m !! i = Some x → alter g i m = <[i := g x]> m.
Proof.
  intros Hx. apply map_eq. intros j. destruct (decide (i = j)) as [<-|Hne].
  - by rewrite lookup_alter_eq, lookup_insert_eq, Hx.
  - by rewrite lookup_alter_ne, lookup_insert_ne.
Qed.

Section HelperFacts.
Context `{Hasher}.

Lemma fold_read_chunks fuel n data h :
  n ≠ 0%nat → (length data ≤ fuel)%nat →
  fold_left md5_update (read_chunks fuel n data) h = md5_update h data.
Proof.
  intros Hn. revert data h.
  induction fuel as [|fuel IH]; intros data h Hlen.
  - destruct data; [|simpl in Hlen; lia]. simpl. by rewrite md5_update_nil.
  - destruct data as [|b data]; [simpl; by rewrite md5_update_nil|].
    cbn [read_chunks fold_left]. rewrite IH.
    + by rewrite md5_update_app, take_drop.
    + rewrite length_drop. simpl in *. lia.
Qed.

Lemma calculate_file_hash_run path s f :
  fs s !! path = Some f →
  calculate_file_hash path s = (Done (md5 (f_data f)), s).
Proof.
  intros Hf. unfold calculate_file_hash, bind, gets, ret. rewrite Hf.
  rewrite fold_read_chunks; [done| |done].
  unfold chunk_size. lia.
Qed.

End HelperFacts.

(** ** The trail of disk states *)

Lemma passes_refl I s : passes I s s.
Proof. exists []. by split. Qed.

Lemma passes_trans I s1 s2 s3 : passes I s1 s2 → passes I s2 s3 → passes I s1 s3.
Proof.
  intros (n1 & E1 & F1) (n2 & E2 & F2). exists (n2 ++ n1). split.
  - by rewrite E2, E1, (assoc_L (++)).
  - by apply Forall_app.
Qed.

Lemma passes_weaken (I J : gmap string file * option string → Prop) s s' :
  (∀ d, I d → J d) → passes I s s' → passes J s s'.
Proof.
  intros HIJ (new & E & F). exists new. split; [done|].
  eapply Forall_impl; eauto.
Qed.

Lemma passes_set_fs (I : gmap string file * option string → Prop) m s :
  I (m, track_file s) → passes I s (set_fs m s).
Proof. intros HI. exists [(m, track_file s)]. split; [done|]. by constructor. Qed.

Lemma passes_set_track (I : gmap string file * option string → Prop) t s :
  I (fs s, t) → passes I s (set_track t s).
Proof. intros HI. exists [(fs s, t)]. split; [done|]. by constructor. Qed.

Lemma passes_emit I e s : passes I s (emit e s).
Proof. exists []. by split. Qed.

Lemma passes_set_requests I n s : passes I s (set_requests n s).
Proof. exists []. by split. Qed.

(** ** Downloads *)

Section DownloadFacts.
Context `{Hasher}.

Lemma write_chunks_run path now cs : ∀ h s old data,
  fs s !! path = Some (landed old now data) →
  ∃ s', write_chunks path now cs h s = (Done (md5_update h (concat cs)), s')
      ∧ fs s' = <[path := landed old now (data ++ concat cs)]> (fs s)
      ∧ track_file s' = track_file s
      ∧ requests_made s' = requests_made s
      ∧ events s' = events s
      ∧ passes (λ d, d.2 = track_file s ∧
                     ∃ k, d.1 = <[path := landed old now (data ++ take k (concat cs))]> (fs s))
               s s'.
Proof.
  induction cs as [|c cs IH]; intros h s old data Hf.
  - exists s. cbn [write_chunks concat]. rewrite md5_update_nil, (right_id_L [] (++)).
    split_and!; try done.
    + by rewrite insert_id.
    + apply passes_refl.
  - destruct c as [|b c].
    + cbn [write_chunks concat app]. by apply IH.
    + set (chunk := b :: c) in *.
      assert (write_chunks path now (chunk :: cs) h
              = (file_write path now chunk >>
                 write_chunks path now cs (md5_update h chunk))) as -> by done.
      unfold bind, file_write, modify.
      set (s1 := set_fs (alter (append_data chunk now) path (fs s)) s).
      assert (fs s1 = <[path := landed old now (data ++ chunk)]> (fs s)) as Hfs1.
      { unfold s1; simpl. by rewrite (alter_Some _ _ _ _ Hf). }
      destruct (IH (md5_update h chunk) s1 old (data ++ chunk)) as (s' & Hrun & Hfs & Htr & Hrq & Hev & Hp).
      { by rewrite Hfs1, lookup_insert_eq. }
      exists s'. rewrite Hrun. cbn [concat].
      rewrite md5_update_app. split_and!; try done.
      * by rewrite Hfs, Hfs1, insert_insert_eq, (assoc_L (++)).
      * eapply passes_trans.
        -- apply (passes_set_fs _ (alter (append_data chunk now) path (fs s)) s).
           split; [done|]. exists (length chunk).
           rewrite take_app_length. by rewrite <-Hfs1.
        -- eapply passes_weaken; [|exact Hp].
           intros d [Hd2 [k Hd1]]. split; [done|].
           exists (length chunk + k)%nat.
           rewrite Hd1, Hfs1, insert_insert_eq.
           by rewrite take_app_add, (assoc_L (++)).
Qed.

Lemma download_run p path r s :
  let old := fs s !! path in
  let now := written_at r in
  ∃ s', download_file_with_progress p path r s
        = (match failure r with
           | Some e => Raised e
           | None => Done (md5 (payload r))
           end, s')
      ∧ fs s' = <[path := landed old now (payload r)]> (fs s)
      ∧ track_file s' = track_file s
      ∧ requests_made s' = requests_made s
      ∧ events s' = events s
      ∧ passes (λ d, d.2 = track_file s ∧
                     ∃ k, d.1 = <[path := landed old now (take k (payload r))]> (fs s))
               s s'.
Proof.
  intros old now. unfold download_file_with_progress, bind, open_wb, modify.
  set (s1 := set_fs _ s).
  assert (fs s1 = <[path := landed old now []]> (fs s)) as Hfs1.
  { unfold s1, old, landed. simpl. by destruct (fs s !! path). }
  destruct (write_chunks_run path now (chunks r) md5_new s1 old [])
    as (s' & Hrun & Hfs & Htr & Hrq & Hev & Hp).
  { by rewrite Hfs1, lookup_insert_eq. }
  exists s'. fold now. rewrite Hrun.
  split_and!; try done.
  - by destruct (failure r).
  - by rewrite Hfs, Hfs1, insert_insert_eq.
  - eapply passes_trans.
    + unfold s1. apply passes_set_fs. split; [done|]. exists 0%nat.
      rewrite take_0. unfold old, landed. simpl. by destruct (fs s !! path).
    + eapply passes_weaken; [|exact Hp].
      intros d [Hd2 [k Hd1]]. split; [done|]. exists k.
      by rewrite Hd1, Hfs1, insert_insert_eq.
Qed.
End DownloadFacts.

(** ** reset_file_timestamp *)

Lemma sleeps_app a b : sleeps (a ++ b) = sleeps a ++ sleeps b.
Proof. apply omap_app. Qed.

Lemma sleeps_log_error evs msg : sleeps (evs ++ [LogError msg]) = sleeps evs.
Proof. rewrite sleeps_app. simpl. by rewrite (right_id_L [] (++)). Qed.

Lemma sleeps_log_info evs msg : sleeps (evs ++ [LogInfo msg]) = sleeps evs.
Proof. rewrite sleeps_app. simpl. by rewrite (right_id_L [] (++)). Qed.

Lemma sleeps_sleep evs n : sleeps (evs ++ [Sleep n]) = sleeps evs ++ [n].
Proof. by rewrite sleeps_app. Qed.

Section TimestampFacts.
Context `{Host}.

Lemma timestamp_astimezone ts tz :
  dt_timestamp (astimezone ts tz) = dt_timestamp ts.
Proof.
  unfold astimezone. unfold dt_timestamp at 1. unfold dt_utcoffset at 1.
  cbn [wall tzinfo]. lia.
Qed.

Lemma reset_file_timestamp_run path ts tzname s :
  ∃ s', reset_file_timestamp path ts tzname s = (Done tt, s')
      ∧ track_file s' = track_file s
      ∧ requests_made s' = requests_made s
      ∧ sleeps (events s') = sleeps (events s)
      ∧ (∀ q, q ≠ path → fs s' !! q = fs s !! q)
      ∧ f_data <$> fs s' !! path = f_data <$> fs s !! path
      ∧ passes (λ d, d.2 = track_file s ∧
                     ∀ q, f_data <$> d.1 !! q = f_data <$> fs s !! q) s s'.
Proof.
  unfold reset_file_timestamp, try_except, bind, lookup_timezone, os_utime,
    set_birth_time, ret, raise, logging_error, modify.
  destruct (pytz_timezone tzname) as [tz|]; cbn beta iota.
  2:{ eexists. split; [done|]. simpl. split_and!; try done.
      - by rewrite sleeps_log_error.
      - apply passes_emit. }
  destruct (fs s !! path) as [f|] eqn:Hf; cbn beta iota.
  2:{ eexists. split; [done|]. simpl. split_and!; try done.
      - by rewrite sleeps_log_error.
      - by rewrite Hf.
      - apply passes_emit. }
  set (t := dt_timestamp _).
  set (s1 := set_fs _ s).
  assert (passes (λ d, d.2 = track_file s ∧
                       ∀ q, f_data <$> d.1 !! q = f_data <$> fs s !! q) s s1) as Hp1.
  { apply passes_set_fs. split; [done|]. intros q. simpl.
    destruct (decide (q = path)) as [->|Hq].
    - by rewrite lookup_insert_eq, Hf.
    - by rewrite lookup_insert_ne. }
  subst s1.
  assert (∀ birth, passes (λ d, d.2 = track_file s ∧
                       ∀ q, f_data <$> d.1 !! q = f_data <$> fs s !! q) s
           (set_fs (<[path := {| f_data := f_data f; f_atime := t; f_mtime := t;
                                 f_birth := birth |}]>
                      (<[path := {| f_data := f_data f; f_atime := t; f_mtime := t;
                                    f_birth := f_birth f |}]> (fs s)))
              (set_fs (<[path := {| f_data := f_data f; f_atime := t; f_mtime := t;
                                    f_birth := f_birth f |}]> (fs s)) s))) as Hp2.
  { intros birth. eapply passes_trans; [exact Hp1|]. apply passes_set_fs.
    split; [done|]. intros q. simpl. destruct (decide (q = path)) as [->|Hq].
    - by rewrite lookup_insert_eq, Hf.
    - by rewrite !lookup_insert_ne. }
  destruct platform_system; cbn beta iota;
    [|destruct ctime_tool_runs; simpl; rewrite ?lookup_insert_eq..];
    (eexists; split; [done|]); simpl;
    (split_and!; [done | done | by rewrite ?sleeps_log_error
                 | by (intros q Hq; rewrite ?lookup_insert_ne)
                 | by rewrite lookup_insert_eq
                 | first [ exact Hp1 | apply Hp2
                         | eapply passes_trans; [exact Hp1 | apply passes_emit] ] ]).
Qed.

(** C10.  On a file that exists and for a zone [pytz] knows,
    [reset_file_timestamp] reads a timestamp without timezone as UTC
    ([pytz.UTC.localize]), converts it (or the aware timestamp as it is) to
    the configured zone, and sets the access time and the modification time
    of the file to the POSIX time of the result, the same value for both:
    the instant the timestamp denotes.  The bytes of the file stay. *)
Theorem reset_file_timestamp_sets_times path ts tzname tz f s :
  fs s !! path = Some f →
  pytz_timezone tzname = Some tz →
  let aware := match tzinfo ts with None => localize_utc ts | Some _ => ts end in
  let applied := dt_timestamp (astimezone aware tz) in
  let s' := (reset_file_timestamp path ts tzname s).2 in
  (tzinfo ts = None → tzinfo aware = Some 0%Z ∧ wall aware = wall ts) ∧
  (tzinfo ts ≠ None → aware = ts) ∧
  applied = declared_instant ts ∧
  ∃ f', fs s' !! path = Some f'
      ∧ f_atime f' = applied
      ∧ f_mtime f' = applied
      ∧ f_data f' = f_data f.
Proof.
  intros Hf Htz aware applied s'.
  split_and!.
  - intros Hn. unfold aware. by rewrite Hn.
  - intros Hn. unfold aware. by destruct (tzinfo ts).
  - unfold applied. rewrite timestamp_astimezone.
    unfold aware, declared_instant, dt_timestamp, dt_utcoffset, localize_utc.
    destruct (tzinfo ts) eqn:E; simpl; [by rewrite E | lia].
  - unfold s', reset_file_timestamp, try_except, bind, lookup_timezone, os_utime,
      set_birth_time, ret, raise, logging_error, modify.
    rewrite Htz. cbn beta iota. rewrite Hf. cbn beta iota.
    fold aware. fold applied.
    destruct platform_system; cbn beta iota.
    + simpl. rewrite lookup_insert_eq. by eexists.
    + destruct ctime_tool_runs; simpl; rewrite lookup_insert_eq;
        [simpl; rewrite lookup_insert_eq|]; by eexists.
    + destruct ctime_tool_runs; simpl; rewrite lookup_insert_eq;
        [simpl; rewrite lookup_insert_eq|]; by eexists.
Qed.
End TimestampFacts.

(** ** One attempt on one item *)

Lemma bind_run {A B} (m : M A) (k : A → M B) s :
  bind m k s = match m s with
               | (Done a, s') => k a s'
               | (Raised e, s') => (Raised e, s')
               end.
Proof. done. Qed.

Section AttemptFacts.
Context `{Hasher} `{Host} `{Constants} `{Layout}.

Lemma rate_limit_run s :
  ∃ s', rate_limit s = (Done tt, s')
      ∧ fs s' = fs s
      ∧ track_file s' = track_file s
      ∧ trail s' = trail s.
Proof.
  unfold rate_limit, bind, modify, gets, ret, logging_info, time_sleep.
  cbn beta iota. repeat case_bool_decide; eexists; by split_and!.
Qed.

(** A failed download into the staging file: nothing else moves. *)
Lemma attempt_staged_fail p r s f e :
  let path := photo_path p in
  let temp := path +:+ ".temp" in
  fs s !! path = Some f →
  failure r = Some e →
  ∃ s', attempt_body p r s = (Raised e, s')
      ∧ fs s' = <[temp := landed (fs s !! temp) (written_at r) (payload r)]> (fs s)
      ∧ track_file s' = track_file s
      ∧ requests_made s' = requests_made s
      ∧ events s' = events s
      ∧ passes (λ d, d.2 = track_file s ∧
                     ∀ q, q ≠ temp → d.1 !! q = fs s !! q) s s'.
Proof.
  intros path temp Hf He.
  destruct (download_run p temp r s) as (s1 & Hrun & Hfs & Htr & Hrq & Hev & Hp).
  exists s1. unfold attempt_body. fold path. fold temp.
  rewrite bind_run. unfold os_path_exists, gets. rewrite Hf.
  rewrite bool_decide_eq_true_2 by eauto.
  rewrite bind_run, bind_run, (calculate_file_hash_run _ _ _ Hf).
  rewrite bind_run, Hrun, He.
  split_and!; try done.
  eapply passes_weaken; [|exact Hp].
  intros d [Hd2 [k Hd1]]. split; [done|]. intros q Hq.
  by rewrite Hd1, lookup_insert_ne.
Qed.

(** A failed download straight into the final path. *)
Lemma attempt_fresh_fail p r s e :
  let path := photo_path p in
  fs s !! path = None →
  failure r = Some e →
  ∃ s', attempt_body p r s = (Raised e, s')
      ∧ fs s' = <[path := landed None (written_at r) (payload r)]> (fs s)
      ∧ track_file s' = track_file s
      ∧ requests_made s' = requests_made s
      ∧ events s' = events s
      ∧ passes (λ d, d.2 = track_file s ∧
                     ∃ k, d.1 = <[path := landed None (written_at r)
                                              (take k (payload r))]> (fs s)) s s'.
Proof.
  intros path Hf He.
  destruct (download_run p path r s) as (s1 & Hrun & Hfs & Htr & Hrq & Hev & Hp).
  exists s1. unfold attempt_body. fold path.
  rewrite bind_run. unfold os_path_exists, gets. rewrite Hf.
  rewrite bool_decide_eq_false_2 by (intros [? ?]; done).
  rewrite bind_run, bind_run, Hrun, He.
  rewrite Hf in Hfs, Hp. by split_and!.
Qed.

(** The steps after the [if]: timestamp, cursor, counter. *)
Lemma commit_tail_run path ts name s :
  ∃ s', (reset_file_timestamp path ts default_timezone >>
         save_last_downloaded name >> rate_limit) s = (Done tt, s')
      ∧ track_file s' = Some name
      ∧ (∀ q, q ≠ path → fs s' !! q = fs s !! q)
      ∧ f_data <$> fs s' !! path = f_data <$> fs s !! path
      ∧ passes (λ d, (∀ q, f_data <$> d.1 !! q = f_data <$> fs s !! q) ∧
                     (d.2 = track_file s ∨ d.2 = Some "" ∨ d.2 = Some name)) s s'.
Proof.
  destruct (reset_file_timestamp_run path ts default_timezone s)
    as (s1 & Hrun1 & Htr1 & _ & _ & Hfr1 & Hd1 & Hp1).
  set (s2 := set_track (Some name) (set_track (Some "") s1)).
  destruct (rate_limit_run s2) as (s3 & Hrun3 & Hfs3 & Htr3 & Htl3).
  exists s3. rewrite bind_run, Hrun1, bind_run.
  unfold save_last_downloaded at 1. rewrite bind_run. unfold modify at 1 2.
  fold s2. rewrite Hrun3. split_and!; try done.
  - intros q Hq. rewrite Hfs3. simpl. by apply Hfr1.
  - by rewrite Hfs3.
  - assert (∀ q, f_data <$> fs s1 !! q = f_data <$> fs s !! q) as Hall.
    { intros q. destruct (decide (q = path)) as [->|Hq]; [done|].
      by rewrite Hfr1. }
    eapply passes_trans.
    { eapply passes_weaken; [|exact Hp1]. intros d [-> Hd]. split; [done|by left]. }
    eapply passes_trans.
    { apply (passes_set_track _ (Some "") s1). split; [done|]. right; by left. }
    eapply passes_trans.
    { apply (passes_set_track _ (Some name) (set_track (Some "") s1)).
      split; [done|]. right; by right. }
    exists []. by rewrite Htl3.
Qed.

(** A new item: the download goes straight to the final path. *)
Lemma attempt_fresh_ok p r s :
  let path := photo_path p in
  fs s !! path = None →
  failure r = None →
  ∃ s', attempt_body p r s = (Done tt, s')
      ∧ track_file s' = Some (filename p)
      ∧ (∀ q, q ≠ path → fs s' !! q = fs s !! q)
      ∧ f_data <$> fs s' !! path = Some (payload r)
      ∧ passes (λ d, (∀ q, q ≠ path → f_data <$> d.1 !! q = f_data <$> fs s !! q) ∧
                     (∃ k, f_data <$> d.1 !! path = Some (take k (payload r))) ∧
                     (d.2 = track_file s ∨
                      (f_data <$> d.1 !! path = Some (payload r) ∧
                       (d.2 = Some "" ∨ d.2 = Some (filename p))))) s s'.
Proof.
  intros path Hf He.
  destruct (download_run p path r s) as (s1 & Hrun & Hfs & Htr & Hrq & Hev & Hp).
  rewrite Hf in Hfs, Hp.
  destruct (commit_tail_run path (added_date p) (filename p) s1)
    as (s2 & Hrun2 & Htr2 & Hfr2 & Hd2 & Hp2).
  exists s2. unfold attempt_body. fold path.
  rewrite bind_run. unfold os_path_exists, gets. rewrite Hf.
  rewrite bool_decide_eq_false_2 by (intros [? ?]; done).
  rewrite bind_run, bind_run, Hrun, He. unfold ret at 1. cbn beta iota.
  rewrite Hrun2.
  assert (f_data <$> fs s1 !! path = Some (payload r)) as Hpath1.
  { by rewrite Hfs, lookup_insert_eq. }
  split_and!; try done.
  - intros q Hq. by rewrite Hfr2, Hfs, lookup_insert_ne.
  - by rewrite Hd2.
  - eapply passes_trans.
    + eapply passes_weaken; [|exact Hp]. intros d [Hdt [k Hd]].
      rewrite Hd. split_and!.
      * intros q Hq. simpl. by rewrite lookup_insert_ne.
      * exists k. simpl. by rewrite lookup_insert_eq.
      * by left.
    + eapply passes_weaken; [|exact Hp2]. intros d [Hd Hdt]. split_and!.
      * intros q Hq. by rewrite Hd, Hfs, lookup_insert_ne.
      * exists (length (payload r)). by rewrite firstn_all, Hd.
      * rewrite Htr in Hdt. destruct Hdt as [?|Hdt]; [by left|].
        right. split; [by rewrite Hd|done].
Qed.

(** A local file with the digest of the download: the staged copy is
    removed, the timestamp reset; the cursor and the counter stay. *)
Lemma attempt_up_to_date p r s f :
  let path := photo_path p in
  let temp := path +:+ ".temp" in
  fs s !! path = Some f →
  failure r = None →
  md5 (f_data f) = md5 (payload r) →
  ∃ s', attempt_body p r s = (Done tt, s')
      ∧ track_file s' = track_file s
      ∧ requests_made s' = requests_made s
      ∧ sleeps (events s') = sleeps (events s)
      ∧ fs s' !! temp = None
      ∧ (∀ q, q ≠ path → q ≠ temp → fs s' !! q = fs s !! q)
      ∧ f_data <$> fs s' !! path = Some (f_data f)
      ∧ passes (λ d, d.2 = track_file s ∧
                     ∀ q, q ≠ temp → f_data <$> d.1 !! q = f_data <$> fs s !! q) s s'.
Proof.
  intros path temp Hf He Heq.
  assert (temp ≠ path) as Hne by apply temp_of_ne.
  destruct (download_run p temp r s) as (s1 & Hrun & Hfs & Htr & Hrq & Hev & Hp).
  set (s1' := emit (LogInfo (filename p +:+ " is already up-to-date, skipping download.")) s1).
  destruct (reset_file_timestamp_run path (added_date p) default_timezone s1')
    as (s2 & Hrun2 & Htr2 & Hrq2 & Hsl2 & Hfr2 & Hd2 & Hp2).
  assert (is_Some (fs s2 !! temp)) as [staged Hstaged].
  { rewrite Hfr2 by done. simpl. rewrite Hfs, lookup_insert_eq. eauto. }
  exists (set_fs (delete temp (fs s2)) s2).
  unfold attempt_body. fold path. fold temp.
  rewrite bind_run. unfold os_path_exists, gets. rewrite Hf.
  rewrite bool_decide_eq_true_2 by eauto.
  rewrite bind_run, bind_run, (calculate_file_hash_run _ _ _ Hf).
  rewrite bind_run, Hrun, He.
  rewrite bool_decide_eq_true_2 by done.
  rewrite bind_run. unfold logging_info at 1, modify at 1. fold s1'.
  rewrite bind_run, Hrun2, bind_run. unfold os_remove. rewrite Hstaged.
  unfold ret. cbn beta iota.
  split_and!; try done.
  - simpl. by rewrite Htr2.
  - simpl. by rewrite Hrq2.
  - simpl. rewrite Hsl2. unfold s1'. simpl. by rewrite sleeps_log_info, Hev.
  - simpl. by rewrite lookup_delete_eq.
  - intros q Hq1 Hq2. simpl. rewrite lookup_delete_ne by done.
    rewrite Hfr2 by done. simpl. by rewrite Hfs, lookup_insert_ne.
  - simpl. rewrite lookup_delete_ne by done. rewrite Hd2. simpl.
    by rewrite Hfs, lookup_insert_ne, Hf.
  - apply (passes_trans _ s s1).
    { eapply passes_weaken; [|exact Hp]. intros d [Hdt [k Hd]].
      split; [done|]. intros q Hq. by rewrite Hd, lookup_insert_ne. }
    apply (passes_trans _ s1 s1'); [apply passes_emit|].
    apply (passes_trans _ s1' s2).
    { eapply passes_weaken; [|exact Hp2]. intros d [Hdt Hd].
      split; [by rewrite Hdt|]. intros q Hq. rewrite Hd. simpl.
      by rewrite Hfs, lookup_insert_ne. }
    apply passes_set_fs. split; [by rewrite Htr2|].
    intros q Hq. simpl. rewrite lookup_delete_ne by done.
    destruct (decide (q = path)) as [->|Hqp].
    + rewrite Hd2. simpl. by rewrite Hfs, lookup_insert_ne.
    + rewrite Hfr2 by done. simpl. by rewrite Hfs, lookup_insert_ne.
Qed.

(** A local file with another digest: the staged copy is renamed over it. *)
Lemma attempt_replace p r s f :
  let path := photo_path p in
  let temp := path +:+ ".temp" in
  fs s !! path = Some f →
  failure r = None →
  md5 (f_data f) ≠ md5 (payload r) →
  ∃ s', attempt_body p r s = (Done tt, s')
      ∧ track_file s' = Some (filename p)
      ∧ fs s' !! temp = None
      ∧ (∀ q, q ≠ path → q ≠ temp → fs s' !! q = fs s !! q)
      ∧ f_data <$> fs s' !! path = Some (payload r)
      ∧ passes (λ d, (∀ q, q ≠ path → q ≠ temp →
                           f_data <$> d.1 !! q = f_data <$> fs s !! q) ∧
                     ((f_data <$> d.1 !! path = Some (f_data f) ∧ d.2 = track_file s) ∨
                      (f_data <$> d.1 !! path = Some (payload r) ∧ d.1 !! temp = None ∧
                       (d.2 = track_file s ∨ d.2 = Some "" ∨ d.2 = Some (filename p)))))
               s s'.
Proof.
  intros path temp Hf He Hneq.
  assert (temp ≠ path) as Hne by apply temp_of_ne.
  destruct (download_run p temp r s) as (s1 & Hrun & Hfs & Htr & Hrq & Hev & Hp).
  set (staged := landed (fs s !! temp) (written_at r) (payload r)) in *.
  set (s1' := emit (LogInfo (filename p +:+
                " exists but differs from the iCloud version. Updating file.")) s1).
  set (s2 := set_fs (<[path := staged]> (delete temp (fs s1'))) s1').
  destruct (commit_tail_run path (added_date p) (filename p) s2)
    as (s3 & Hrun3 & Htr3 & Hfr3 & Hd3 & Hp3).
  exists s3.
  unfold attempt_body. fold path. fold temp.
  rewrite bind_run. unfold os_path_exists, gets. rewrite Hf.
  rewrite bool_decide_eq_true_2 by eauto.
  rewrite bind_run, bind_run, (calculate_file_hash_run _ _ _ Hf).
  rewrite bind_run, Hrun, He.
  rewrite bool_decide_eq_false_2 by done.
  rewrite bind_run. unfold logging_info at 1, modify at 1. fold s1'.
  rewrite bind_run. unfold os_rename.
  assert (fs s1' !! temp = Some staged) as Hst.
  { unfold s1'. simpl. by rewrite Hfs, lookup_insert_eq. }
  rewrite Hst. fold s2. unfold ret at 1. cbn beta iota. rewrite Hrun3.
  assert (fs s2 !! temp = None) as Htemp2.
  { unfold s2. simpl. rewrite lookup_insert_ne by done. by rewrite lookup_delete_eq. }
  assert (f_data <$> fs s2 !! path = Some (payload r)) as Hpath2.
  { unfold s2. simpl. by rewrite lookup_insert_eq. }
  assert (∀ q, q ≠ path → q ≠ temp → fs s2 !! q = fs s !! q) as Hfr2.
  { intros q Hq1 Hq2. unfold s2. simpl.
    rewrite lookup_insert_ne by done. rewrite lookup_delete_ne by done.
    by rewrite Hfs, lookup_insert_ne. }
  split_and!; try done.
  - by rewrite Hfr3.
  - intros q Hq1 Hq2. rewrite Hfr3 by done. by apply Hfr2.
  - by rewrite Hd3.
  - apply (passes_trans _ s s1).
    { eapply passes_weaken; [|exact Hp]. intros d [Hdt [k Hd]]. split.
      - intros q Hq1 Hq2. by rewrite Hd, lookup_insert_ne.
      - left. split; [|done]. rewrite Hd. simpl.
        by rewrite lookup_insert_ne, Hf. }
    apply (passes_trans _ s1 s1'); [apply passes_emit|].
    apply (passes_trans _ s1' s2).
    { apply passes_set_fs. fold s2. split.
      - intros q Hq1 Hq2. simpl. by rewrite Hfr2.
      - right. split_and!; [done|done|]. left. simpl. done. }
    eapply passes_weaken; [|exact Hp3]. intros d [Hd Hdt]. split.
    + intros q Hq1 Hq2. by rewrite Hd, Hfr2.
    + right. split_and!.
      * by rewrite Hd.
      * specialize (Hd temp). rewrite Htemp2 in Hd. simpl in Hd.
        by destruct (d.1 !! temp).
      * unfold s2, s1' in Hdt. simpl in Hdt. by rewrite Htr in Hdt.
Qed.
End AttemptFacts.

(** ** The retry loop *)

Section RetryFacts.
Context `{Hasher} `{Host} `{Constants} `{Layout}.

(** Any failed attempt: the cursor, the counter and the log stay, and there
    is a file at the final path afterwards. *)
Lemma attempt_fail p r s e :
  let path := photo_path p in
  let temp := path +:+ ".temp" in
  failure r = Some e →
  ∃ s', attempt_body p r s = (Raised e, s')
      ∧ track_file s' = track_file s
      ∧ requests_made s' = requests_made s
      ∧ events s' = events s
      ∧ is_Some (fs s' !! path)
      ∧ (is_Some (fs s !! path) → fs s' !! path = fs s !! path ∧ is_Some (fs s' !! temp))
      ∧ (∀ q, q ≠ path → q ≠ temp → fs s' !! q = fs s !! q).
Proof.
  intros path temp He.
  assert (temp ≠ path) as Hne by apply temp_of_ne.
  destruct (fs s !! path) as [f|] eqn:Hf.
  - destruct (attempt_staged_fail p r s f e Hf He)
      as (s' & Hrun & Hfs & Htr & Hrq & Hev & _).
    exists s'. fold path temp in Hfs. split_and!; try done.
    + rewrite Hfs, lookup_insert_ne by done. rewrite Hf. eauto.
    + intros _. rewrite Hfs. split.
      * by rewrite lookup_insert_ne.
      * rewrite lookup_insert_eq. eauto.
    + intros q Hq1 Hq2. by rewrite Hfs, lookup_insert_ne.
  - destruct (attempt_fresh_fail p r s e Hf He)
      as (s' & Hrun & Hfs & Htr & Hrq & Hev & _).
    exists s'. fold path in Hfs. split_and!; try done.
    + rewrite Hfs, lookup_insert_eq. eauto.
    + intros q Hq1 Hq2. by rewrite Hfs, lookup_insert_ne.
Qed.

(** Any attempt whose download completes. *)
Lemma attempt_ok p r s :
  let path := photo_path p in
  let temp := path +:+ ".temp" in
  failure r = None →
  ∃ s', attempt_body p r s = (Done tt, s')
      ∧ f_data <$> fs s' !! path =
          match fs s !! path with
          | Some f => if decide (md5 (f_data f) = md5 (payload r))
                      then Some (f_data f) else Some (payload r)
          | None => Some (payload r)
          end
      ∧ (is_Some (fs s !! path) → fs s' !! temp = None)
      ∧ (fs s' !! temp = None ∨ fs s' !! temp = fs s !! temp)
      ∧ (∀ q, q ≠ path → q ≠ temp → fs s' !! q = fs s !! q).
Proof.
  intros path temp He.
  assert (temp ≠ path) as Hne by apply temp_of_ne.
  destruct (fs s !! path) as [f|] eqn:Hf.
  - destruct (decide (md5 (f_data f) = md5 (payload r))) as [Heq|Hneq].
    + destruct (attempt_up_to_date p r s f Hf He Heq)
        as (s' & Hrun & _ & _ & _ & Htemp & Hfr & Hd & _).
      exists s'. by split_and!; auto.
    + destruct (attempt_replace p r s f Hf He Hneq)
        as (s' & Hrun & _ & Htemp & Hfr & Hd & _).
      exists s'. by split_and!; auto.
  - destruct (attempt_fresh_ok p r s Hf He) as (s' & Hrun & _ & Hfr & Hd & _).
    exists s'. split_and!; auto; by intros [? ?].
Qed.

Lemma on_failure_run p attempt e s :
  on_failure p attempt e s =
    if bool_decide (S attempt < MAX_RETRIES)%nat
    then (Done (Some (S attempt)), retrying p attempt e s)
    else (Done None, given_up p e s).
Proof.
  unfold on_failure, retrying, given_up, bind, logging_error, logging_info,
    time_sleep, modify, ret.
  by case_bool_decide.
Qed.

Lemma retry_loop_step fuel attempt p net s :
  (attempt < MAX_RETRIES)%nat →
  retry_loop (S fuel) attempt p net s =
    match attempt_body p (net attempt) s with
    | (Done _, s') => (Done tt, s')
    | (Raised e, s') =>
        if bool_decide (S attempt < MAX_RETRIES)%nat
        then retry_loop fuel (S attempt) p net (retrying p attempt e s')
        else (Done tt, given_up p e s')
    end.
Proof.
  intros Hlt. cbn [retry_loop]. rewrite bool_decide_eq_true_2 by done.
  rewrite bind_run. unfold try_except. rewrite bind_run.
  destruct (attempt_body p (net attempt) s) as [[[]|e] s']; [done|].
  rewrite on_failure_run. by case_bool_decide.
Qed.

Lemma retry_loop_stop fuel attempt p net s :
  ¬ (attempt < MAX_RETRIES)%nat →
  retry_loop fuel attempt p net s = (Done tt, s).
Proof.
  intros Hge. destruct fuel; [done|]. cbn [retry_loop].
  by rewrite bool_decide_eq_false_2.
Qed.

(** The fuel [MAX_RETRIES] of [process_photo] is enough: the loop ends by
    its own test, and more fuel changes nothing. *)
Lemma retry_loop_fuel p net : ∀ fuel fuel' attempt s,
  (MAX_RETRIES ≤ fuel + attempt)%nat →
  (MAX_RETRIES ≤ fuel' + attempt)%nat →
  retry_loop fuel attempt p net s = retry_loop fuel' attempt p net s.
Proof.
  induction fuel as [|fuel IH]; intros fuel' attempt s Hf Hf'.
  - rewrite !retry_loop_stop by lia. done.
  - destruct (decide (attempt < MAX_RETRIES)%nat) as [Hlt|Hge].
    2:{ by rewrite !retry_loop_stop. }
    destruct fuel' as [|fuel']; [lia|].
    rewrite !retry_loop_step by done.
    destruct (attempt_body p (net attempt) s) as [[[]|e] s']; [done|].
    case_bool_decide; [|done]. apply IH; lia.
Qed.

(** Responses past attempt [MAX_RETRIES - 1] are never asked for. *)
Lemma retry_loop_net p net net' :
  (∀ n, (n < MAX_RETRIES)%nat → net n = net' n) →
  ∀ fuel attempt s, retry_loop fuel attempt p net s = retry_loop fuel attempt p net' s.
Proof.
  intros Hnet. induction fuel as [|fuel IH]; intros attempt s; [done|].
  destruct (decide (attempt < MAX_RETRIES)%nat) as [Hlt|Hge].
  2:{ by rewrite !retry_loop_stop. }
  rewrite !retry_loop_step by done. rewrite <-Hnet by done.
  destruct (attempt_body p (net attempt) s) as [[[]|e] s']; [done|].
  case_bool_decide; [|done]. apply IH.
Qed.

(** A relation that every attempt and every log entry respects holds
    across the retry loop, which never raises. *)
Lemma retry_loop_rel (Pre : state → Prop) (R : state → state → Prop) p net :
  (∀ s, R s s) →
  (∀ a b c, R a b → R b c → R a c) →
  (∀ s e, R s (emit e s)) →
  (∀ s e, Pre s → Pre (emit e s)) →
  (∀ n s, Pre s → R s (attempt_body p (net n) s).2 ∧ Pre (attempt_body p (net n) s).2) →
  ∀ fuel attempt s, Pre s →
    (retry_loop fuel attempt p net s).1 = Done tt ∧
    R s (retry_loop fuel attempt p net s).2 ∧
    Pre (retry_loop fuel attempt p net s).2.
Proof.
  intros Hrefl Htrans Hemit Hpre Hbody.
  induction fuel as [|fuel IH]; intros attempt s HP; [by split_and!|].
  destruct (decide (attempt < MAX_RETRIES)%nat) as [Hlt|Hge].
  2:{ rewrite retry_loop_stop by done. by split_and!. }
  rewrite retry_loop_step by done.
  destruct (Hbody attempt s HP) as [HR HP'].
  destruct (attempt_body p (net attempt) s) as [[[]|e] s']; [by split_and!|].
  simpl in HR, HP'. case_bool_decide.
  - assert (Pre (retrying p attempt e s')) as HP2 by (unfold retrying; auto).
    destruct (IH (S attempt) _ HP2) as (? & HR2 & ?). split_and!; [done| |done].
    eapply Htrans; [exact HR|]. eapply Htrans; [|exact HR2].
    unfold retrying. eauto.
  - simpl. split_and!; [done| |unfold given_up; auto].
    eapply Htrans; [exact HR|]. unfold given_up. eauto.
Qed.
End RetryFacts.

Section ItemFacts.
Context `{Hasher} `{Host} `{Constants} `{Layout}.

(** An item of which every attempt fails. *)
Lemma retry_all_fail p net :
  (∀ n, failure (net n) ≠ None) →
  ∀ fuel attempt s,
    (fuel + attempt = MAX_RETRIES)%nat →
    ∃ s', retry_loop fuel attempt p net s = (Done tt, s')
        ∧ track_file s' = track_file s
        ∧ requests_made s' = requests_made s
        ∧ sleeps (events s') =
            sleeps (events s) ++ ((λ n, exponential_backoff (S n)) <$> seq attempt (fuel - 1))
        ∧ ((0 < fuel)%nat →
             last (events s') =
               Some (LogError ("Max retries reached for " +:+ filename p
                                 +:+ ". Skipping file."))).
Proof.
  intros Hfail. induction fuel as [|fuel IH]; intros attempt s Hsum.
  - exists s. simpl. rewrite (right_id_L [] (++)). split_and!; try done. lia.
  - assert (attempt < MAX_RETRIES)%nat as Hlt by lia.
    rewrite retry_loop_step by done.
    destruct (failure (net attempt)) as [e|] eqn:He; [|by destruct (Hfail attempt)].
    destruct (attempt_fail p (net attempt) s e He)
      as (s1 & Hrun & Htr & Hrq & Hev & _).
    rewrite Hrun. case_bool_decide as Hnext.
    + destruct (IH (S attempt) (retrying p attempt e s1)) as (s' & Hrun' & Htr' & Hrq' & Hsl' & Hlog');
        [lia|].
      exists s'. split_and!; try done.
      * by rewrite Htr'.
      * by rewrite Hrq'.
      * rewrite Hsl'. unfold retrying. simpl.
        rewrite sleeps_sleep, sleeps_log_info, sleeps_log_error, Hev.
        destruct fuel as [|fuel]; [lia|]. simpl.
        rewrite Nat.sub_0_r. by rewrite <-(assoc_L (++)).
      * intros _. apply Hlog'. lia.
    + exists (given_up p e s1). split_and!; try done.
      * unfold given_up. simpl. rewrite !sleeps_log_error, Hev.
        assert (fuel = 0)%nat as -> by lia. simpl. by rewrite (right_id_L [] (++)).
      * intros _. unfold given_up. simpl. by rewrite last_snoc.
Qed.

(** What the processing of an item cannot touch: every path but its own
    two.  The loop never raises. *)
Lemma process_photo_frame p net s :
  (process_photo p net s).1 = Done tt ∧
  ∀ q, q ≠ photo_path p → q ≠ photo_path p +:+ ".temp" →
       fs (process_photo p net s).2 !! q = fs s !! q.
Proof.
  destruct (retry_loop_rel (λ _, True)
              (λ a b, ∀ q, q ≠ photo_path p → q ≠ photo_path p +:+ ".temp" →
                           fs b !! q = fs a !! q) p net) with (fuel := MAX_RETRIES)
    (attempt := 0%nat) (s := s) as (Hd & Hfr & _); try done.
  - intros a b c Hab Hbc q Hq1 Hq2. by rewrite Hbc, Hab.
  - intros n s0 _. split; [|done]. intros q Hq1 Hq2.
    destruct (failure (net n)) as [e|] eqn:He.
    + destruct (attempt_fail p (net n) s0 e He) as (s' & Hrun & _ & _ & _ & _ & _ & Hfr).
      rewrite Hrun. by apply Hfr.
    + destruct (attempt_ok p (net n) s0 He) as (s' & Hrun & _ & _ & _ & Hfr).
      rewrite Hrun. by apply Hfr.
Qed.
End ItemFacts.

(** ** The loop over the listing *)

Lemma pending_false {A} last (jobs : list (photo * A)) : pending false last jobs = jobs.
Proof. by destruct jobs as [|[p a] rest]. Qed.


Lemma pending_suffix {A} skip last (jobs : list (photo * A)) :
  pending skip last jobs `suffix_of` jobs.
Proof.
  induction jobs as [|[p a] rest IH]; [done|]. simpl.
  destruct skip; [|done]. case_bool_decide.
  - by apply suffix_cons_r.
  - by apply suffix_cons_r.
Qed.

(** With the cursor on an item that no earlier item shares its name with,
    the pending items are those listed after it. *)
Lemma pending_after {A} (pre : list (photo * A)) item post :
  (∀ x, x ∈ pre → filename x.1 ≠ filename item.1) →
  pending true (Some (filename item.1)) (pre ++ item :: post) = post.
Proof.
  intros Hpre. induction pre as [|[p a] pre IH]; simpl.
  - destruct item as [p a]. simpl. by rewrite bool_decide_eq_true_2.
  - rewrite bool_decide_eq_false_2.
    + apply IH. intros x Hx. apply Hpre. by right.
    + intros [= E]. by apply (Hpre (p, a)); [left|].
Qed.

(** A cursor that names no item leaves nothing to process. *)
Lemma pending_no_match {A} last (jobs : list (photo * A)) :
  (∀ x, x ∈ jobs → Some (filename x.1) ≠ last) →
  pending true last jobs = [].
Proof.
  induction jobs as [|[p a] rest IH]; intros Hno; [done|]. simpl.
  rewrite bool_decide_eq_false_2.
  - apply IH. intros x Hx. apply Hno. by right.
  - apply (Hno (p, a)). by left.
Qed.

Section LoopFacts.
Context `{Hasher} `{Host} `{Constants} `{Layout}.

Lemma sync_loop_pending skip last jobs s :
  sync_loop skip last jobs s = sync_loop false last (pending skip last jobs) s.
Proof.
  induction jobs as [|[p net] rest IH]; [by destruct skip|].
  destruct skip; [|done]. cbn [sync_loop pending].
  case_bool_decide; [done|]. apply IH.
Qed.

Lemma sync_loop_cons last p net rest s :
  sync_loop false last ((p, net) :: rest) s =
    sync_loop false last rest (process_photo p net s).2.
Proof.
  cbn [sync_loop]. rewrite bind_run.
  destruct (process_photo_frame p net s) as [Hd _].
  destruct (process_photo p net s) as [o s']. simpl in *. by rewrite Hd.
Qed.

Lemma sync_loop_app last a b s :
  sync_loop false last (a ++ b) s =
    sync_loop false last b (sync_loop false last a s).2.
Proof.
  revert s. induction a as [|[p net] a IH]; intros s; [done|].
  rewrite <-app_comm_cons, !sync_loop_cons. apply IH.
Qed.

(** A relation that the processing of each listed item respects holds
    across the loop, which never raises. *)
Lemma sync_loop_rel (Pre : state → Prop) (R : state → state → Prop) last jobs :
  (∀ s, R s s) →
  (∀ a b c, R a b → R b c → R a c) →
  (∀ p net s, (p, net) ∈ jobs → Pre s →
     R s (process_photo p net s).2 ∧ Pre (process_photo p net s).2) →
  ∀ s, Pre s →
    (sync_loop false last jobs s).1 = Done tt ∧
    R s (sync_loop false last jobs s).2 ∧
    Pre (sync_loop false last jobs s).2.
Proof.
  intros Hrefl Htrans. induction jobs as [|[p net] rest IH]; intros Hstep s HP.
  - by split_and!.
  - rewrite sync_loop_cons.
    destruct (Hstep p net s) as [HR HP']; [by left|done|].
    destruct (IH (λ p' net' s' Hin, Hstep p' net' s' (list_elem_of_further _ _ _ Hin))
                _ HP') as (Hd & HR2 & HP2).
    split_and!; [done| |done]. by eapply Htrans.
Qed.


Lemma process_photos_run jobs s :
  process_photos jobs s =
    sync_loop false (strip <$> track_file s)
      (pending (bool_decide (strip <$> track_file s ≠ None)) (strip <$> track_file s) jobs)
      (set_requests 0
         (emit (LogInfo ("Found " +:+ pretty (length jobs) +:+ " items in iCloud.")) s)).
Proof.
  unfold process_photos. rewrite bind_run. unfold logging_info at 1, modify at 1.
  rewrite bind_run. unfold load_last_downloaded, gets. cbn beta iota.
  rewrite bind_run. unfold modify at 1. cbn beta iota.
  by rewrite sync_loop_pending.
Qed.
End LoopFacts.

(** * The claims *)

Section Backoff.
Context `{Hasher} `{Host} `{Constants} `{Layout}.

(** C2, as the code has it.  After the failed attempt numbered [n] (from 0)
    the retry controller sleeps exactly
    [min (INITIAL_WAIT * 2^(n+1)) MAX_WAIT] seconds when [n + 1 < MAX_RETRIES],
    and gives the item up without sleeping otherwise.  So an item of which
    every attempt fails waits [MAX_RETRIES - 1] times, with the exponents
    1, 2, ...; and responses numbered [MAX_RETRIES] or more are never asked
    for: there is no attempt past the [MAX_RETRIES]-th. *)
Theorem backoff_schedule p net s :
  (∀ n, failure (net n) ≠ None) →
  (∀ n e s0,
     if bool_decide (S n < MAX_RETRIES)%nat
     then (on_failure p n e s0).1 = Done (Some (S n)) ∧
          sleeps (events (on_failure p n e s0).2) =
            sleeps (events s0) ++ [Z.min (INITIAL_WAIT * 2 ^ (Z.of_nat n + 1)) MAX_WAIT]
     else (on_failure p n e s0).1 = Done None ∧
          sleeps (events (on_failure p n e s0).2) = sleeps (events s0)) ∧
  sleeps (events (process_photo p net s).2) =
    sleeps (events s) ++
    ((λ n, Z.min (INITIAL_WAIT * 2 ^ (Z.of_nat n + 1)) MAX_WAIT) <$> seq 0 (MAX_RETRIES - 1)) ∧
  (∀ net', (∀ n, (n < MAX_RETRIES)%nat → net' n = net n) →
           process_photo p net' s = process_photo p net s).
Proof.
  intros Hfail.
  assert (∀ n, exponential_backoff (S n)
               = Z.min (INITIAL_WAIT * 2 ^ (Z.of_nat n + 1)) MAX_WAIT) as Hexp.
  { intros n. unfold exponential_backoff. do 3 f_equal. lia. }
  split_and!.
  - intros n e s0. rewrite on_failure_run. case_bool_decide; simpl.
    + split; [done|]. unfold retrying. simpl.
      by rewrite sleeps_sleep, sleeps_log_info, sleeps_log_error, Hexp.
    + split; [done|]. unfold given_up. simpl. by rewrite !sleeps_log_error.
  - destruct (retry_all_fail p net Hfail MAX_RETRIES 0 s) as (s' & Hrun & _ & _ & Hsl & _);
      [lia|].
    unfold process_photo. rewrite Hrun. simpl. rewrite Hsl. f_equal.
    apply list_fmap_ext. intros _ n _. apply Hexp.
  - intros net' Hnet. unfold process_photo. by apply retry_loop_net.
Qed.
End Backoff.

Section BackoffExamples.
Local Existing Instance plain_hasher.
Local Existing Instance linux_host.
Local Existing Instance shipped_constants.
Local Existing Instance flat_layout.

(** With the constants of the scripts an item that keeps failing waits
    2, 4, 8 and 16 seconds. *)
Lemma backoff_schedule_witness :
  (∀ n : nat, failure ((λ _, broken) n) ≠ None) ∧
  sleeps (events (process_photo (item "a.jpg") (λ _, broken) empty_state).2) =
    [2; 4; 8; 16]%Z.
Proof.
  assert (∀ n : nat, failure ((λ _, broken) n) ≠ None) as Hfail by done.
  split; [exact Hfail|].
  exact (proj1 (proj2 (backoff_schedule (item "a.jpg") (λ _, broken) empty_state Hfail))).
Defined.

(** C2, as stated, fails: the wait after the failed attempt 0 is 2 seconds,
    not [exponential_backoff 0 = 1], and the waits of an item that keeps
    failing are 2, 4, 8, 16, not 1, 2, 4, 8, 16, 32. *)
Lemma backoff_claim_counterexample :
  sleeps (events (process_photo (item "a.jpg") (λ _, broken) empty_state).2)
    = [2; 4; 8; 16]%Z ∧
  exponential_backoff 0 = 1%Z ∧
  sleeps (events (on_failure (item "a.jpg") 0 "ConnectionError" empty_state).2)
    ≠ [exponential_backoff 0] ∧
  sleeps (events (process_photo (item "a.jpg") (λ _, broken) empty_state).2)
    ≠ (exponential_backoff <$> seq 0 6).
Proof. by vm_compute. Qed.
End BackoffExamples.

Section Staging.
Context `{Hasher} `{Host} `{Constants} `{Layout}.




(** C7, as the code has it.  An interrupt stops the run wherever it
    arrives; what it leaves is one of the disk states an attempt passes
    through.  In each of them a final file that existed before the attempt
    holds its old bytes or the whole download, never a part of it; and the
    cursor file has its old content unless the final path already holds the
    whole download of a response that ended without error, in which case
    it may also be empty or name the item. *)
Theorem interrupt_states p r s :
  passes (λ d, (∀ f, fs s !! photo_path p = Some f →
                     f_data <$> d.1 !! photo_path p = Some (f_data f) ∨
                     f_data <$> d.1 !! photo_path p = Some (payload r)) ∧
               (d.2 = track_file s ∨
                (failure r = None ∧
                 f_data <$> d.1 !! photo_path p = Some (payload r) ∧
                 (d.2 = Some "" ∨ d.2 = Some (filename p)))))
         s (attempt_body p r s).2.
Proof.
  assert (photo_path p +:+ ".temp" ≠ photo_path p) as Hne by apply temp_of_ne.
  destruct (fs s !! photo_path p) as [f|] eqn:Hf; destruct (failure r) as [e|] eqn:He.
  - destruct (attempt_staged_fail p r s f e Hf He) as (s' & Hrun & _ & _ & _ & _ & Hp).
    rewrite Hrun. simpl. eapply passes_weaken; [|exact Hp].
    intros d [Hdt Hd]. split; [|by left].
    intros f0 [= <-]. left. by rewrite Hd, Hf.
  - destruct (decide (md5 (f_data f) = md5 (payload r))) as [Heq|Hneq].
    + destruct (attempt_up_to_date p r s f Hf He Heq)
        as (s' & Hrun & _ & _ & _ & _ & _ & _ & Hp).
      rewrite Hrun. simpl. eapply passes_weaken; [|exact Hp].
      intros d [Hdt Hd]. split; [|by left].
      intros f0 [= <-]. left. by rewrite Hd, Hf.
    + destruct (attempt_replace p r s f Hf He Hneq) as (s' & Hrun & _ & _ & _ & _ & Hp).
      rewrite Hrun. simpl. eapply passes_weaken; [|exact Hp].
      intros d [_ [[Hd Hdt]|(Hd & _ & Hdt)]].
      * split; [|by left]. intros f0 [= <-]. by left.
      * split; [intros f0 _; by right|].
        destruct Hdt as [?|Hdt]; [by left|]. right. by split_and!.
  - destruct (attempt_fresh_fail p r s e Hf He) as (s' & Hrun & _ & _ & _ & _ & Hp).
    rewrite Hrun. simpl. eapply passes_weaken; [|exact Hp].
    intros d [Hdt _]. split; [done|by left].
  - destruct (attempt_fresh_ok p r s Hf He) as (s' & Hrun & _ & _ & _ & Hp).
    rewrite Hrun. simpl. eapply passes_weaken; [|exact Hp].
    intros d (_ & _ & Hdt). split; [done|].
    destruct Hdt as [?|[Hd Hdt]]; [by left|]. right. by split_and!.
Qed.
End Staging.

Section Resume.
Context `{Hasher} `{Host} `{Constants} `{Layout}.

Lemma process_photos_pending jobs s :
  process_photos jobs s =
    sync_loop false (strip <$> track_file s)
      (pending (bool_decide (strip <$> track_file s ≠ None)) (strip <$> track_file s) jobs)
      (loop_start jobs s).
Proof. apply process_photos_run. Qed.


(** C6, as the code has it.  An item of which all [MAX_RETRIES] attempts
    fail is given up: the failure is logged, the cursor is the one from
    before the item, and the loop goes on with the next item.  Every run
    starts an item at attempt 0.  A later run processes the pending items
    of its own cursor: it processes the item again when there is no cursor,
    or when the cursor first matches an item listed before it; it skips the
    item when the cursor first matches an item listed after it. *)
Theorem exhausted_item_is_skipped p net s :
  (∀ n, failure (net n) ≠ None) →
  (0 < MAX_RETRIES)%nat →
  (process_photo p net s).1 = Done tt ∧
  track_file (process_photo p net s).2 = track_file s ∧
  last (events (process_photo p net s).2) =
    Some (LogError ("Max retries reached for " +:+ filename p +:+ ". Skipping file.")) ∧
  (∀ cursor rest,
     sync_loop false cursor ((p, net) :: rest) s =
       sync_loop false cursor rest (process_photo p net s).2) ∧
  (∀ net2, process_photo p net2 = retry_loop MAX_RETRIES 0 p net2) ∧
  (∀ jobs2 s2,
     process_photos jobs2 s2 =
       sync_loop false (strip <$> track_file s2)
         (pending (bool_decide (strip <$> track_file s2 ≠ None))
                  (strip <$> track_file s2) jobs2)
         (loop_start jobs2 s2)) ∧
  (∀ pre (net2 : nat → response) rest2,
     pending false None (pre ++ (p, net2) :: rest2) = pre ++ (p, net2) :: rest2) ∧
  (∀ a x b (net2 : nat → response) rest2,
     (∀ y, y ∈ a → filename y.1 ≠ filename x.1) →
     pending true (Some (filename x.1)) (a ++ x :: b ++ (p, net2) :: rest2)
       = b ++ (p, net2) :: rest2) ∧
  (∀ pre (net2 : nat → response) mid x post,
     (∀ y, y ∈ pre ++ (p, net2) :: mid → filename y.1 ≠ filename x.1) →
     pending true (Some (filename x.1)) (pre ++ (p, net2) :: mid ++ x :: post) = post).
Proof.
  intros Hfail Hpos.
  destruct (retry_all_fail p net Hfail MAX_RETRIES 0 s)
    as (s' & Hrun & Htr & _ & _ & Hlog); [lia|].
  split_and!.
  - unfold process_photo. by rewrite Hrun.
  - unfold process_photo. by rewrite Hrun.
  - unfold process_photo. rewrite Hrun. by apply Hlog.
  - intros cursor rest. by rewrite sync_loop_cons.
  - done.
  - intros jobs2 s2. apply process_photos_pending.
  - intros pre net2 rest2. apply pending_false.
  - intros a x b net2 rest2 Ha. by apply pending_after.
  - intros pre net2 mid x post Hno.
    rewrite (app_comm_cons mid), (assoc_L (++)). by apply pending_after.
Qed.
End Resume.

(** ** Two runs in succession *)


Section Idempotence.
Context `{Hasher} `{Host} `{Constants} `{Layout}.
Variable content : photo → bytes.





End Idempotence.

(** * The claims on concrete runs *)

Section Examples.
Local Existing Instance plain_hasher.
Local Existing Instance linux_host.
Local Existing Instance shipped_constants.
Local Existing Instance flat_layout.

(** C1 on a run: the local file of [a.jpg] has the digest of the download.
    The run removes the staged copy, sets both times of the file to the
    declared timestamp and keeps its bytes, but the cursor is not advanced
    to [a.jpg]: the branch leaves the loop body before
    [save_last_downloaded].  When the file is missing, the same item does
    advance the cursor. *)
Theorem identical_file_keeps_cursor :
  md5 (f_data (stored "AAA")) = md5 (payload (complete "AAA")) ∧
  fs (run [(item "a.jpg", λ _, complete "AAA")]
          (disk_with [(photo_path (item "a.jpg"), stored "AAA")] None))
     !! photo_path (item "a.jpg")
    = Some {| f_data := bytes_of_string "AAA"; f_atime := 1000; f_mtime := 1000;
              f_birth := 1 |} ∧
  fs (run [(item "a.jpg", λ _, complete "AAA")]
          (disk_with [(photo_path (item "a.jpg"), stored "AAA")] None))
     !! (photo_path (item "a.jpg") +:+ ".temp") = None ∧
  track_file (run [(item "a.jpg", λ _, complete "AAA")]
                  (disk_with [(photo_path (item "a.jpg"), stored "AAA")] None))
    = None ∧
  track_file (run [(item "a.jpg", λ _, complete "AAA")] (disk_with [] None))
    = Some "a.jpg".
Proof. by vm_compute. Qed.

(** C9 on a run, with [RATE_LIMIT = 1] and [TIME_WINDOW = 5]: an item found
    up to date is not counted and no pause follows it, while a new item is
    counted and followed by the pause. *)
Theorem identical_file_is_not_counted :
  sleeps (events (@run plain_hasher linux_host throttled_constants flat_layout
                    [(item "a.jpg", λ _, complete "AAA")]
                    (disk_with [(photo_path (item "a.jpg"), stored "AAA")] None)))
    = [] ∧
  sleeps (events (@run plain_hasher linux_host throttled_constants flat_layout
                    [(item "a.jpg", λ _, complete "AAA")] (disk_with [] None)))
    = [5%Z] ∧
  requests_made (run [(item "a.jpg", λ _, complete "AAA")]
                     (disk_with [(photo_path (item "a.jpg"), stored "AAA")] None))
    = 0%Z ∧
  requests_made (run [(item "a.jpg", λ _, complete "AAA")] (disk_with [] None))
    = 1%Z.
Proof. by vm_compute. Qed.

(** C10 on a file: a timestamp without timezone. *)
Lemma reset_file_timestamp_sets_times_witness :
  ∃ f', fs (reset_file_timestamp "f" {| wall := 1000; tzinfo := None |} "UTC"
              (disk_with [("f", stored "AAA")] None)).2 !! "f" = Some f'
      ∧ f_atime f' = 1000%Z ∧ f_mtime f' = 1000%Z ∧ f_data f' = bytes_of_string "AAA".
Proof.
  exact (proj2 (proj2 (proj2
    (reset_file_timestamp_sets_times "f" {| wall := 1000; tzinfo := None |} "UTC"
       (λ _, 0%Z) (stored "AAA") (disk_with [("f", stored "AAA")] None)
       eq_refl eq_refl)))).
Defined.






(** C6, as stated, fails.  In the first run [d.jpg] fails five times and
    [e.jpg] is downloaded: the cursor ends on [e.jpg].  The next run, in
    which the download of [d.jpg] would work, skips both items: nothing is
    pending, and the file of [d.jpg] is still the broken one. *)
Lemma retry_claim_counterexample :
  track_file (run [(item "d.jpg", λ _, broken); (item "e.jpg", λ _, complete "EEE")]
                  empty_state) = Some "e.jpg" ∧
  pending true (Some "e.jpg")
    [(item "d.jpg", λ _ : nat, complete "DDD"); (item "e.jpg", λ _, complete "EEE")] = [] ∧
  f_data <$> fs (run [(item "d.jpg", λ _, complete "DDD"); (item "e.jpg", λ _, complete "EEE")]
                   (run [(item "d.jpg", λ _, broken); (item "e.jpg", λ _, complete "EEE")]
                        empty_state))
                !! photo_path (item "d.jpg")
    = Some (bytes_of_string "xx").
Proof. by vm_compute. Qed.

(** C6 on an item of which every attempt fails. *)
Lemma exhausted_item_is_skipped_witness :
  track_file (process_photo (item "d.jpg") (λ _, broken) empty_state).2 = None ∧
  last (events (process_photo (item "d.jpg") (λ _, broken) empty_state).2) =
    Some (LogError "Max retries reached for d.jpg. Skipping file.").
Proof.
  assert (∀ n : nat, failure ((λ _, broken) n) ≠ None) as Hfail by done.
  assert (0 < MAX_RETRIES)%nat as Hpos by (vm_compute; lia).
  split.
  - exact (proj1 (proj2
      (exhausted_item_is_skipped (item "d.jpg") (λ _, broken) empty_state Hfail Hpos))).
  - exact (proj1 (proj2 (proj2
      (exhausted_item_is_skipped (item "d.jpg") (λ _, broken) empty_state Hfail Hpos)))).
Defined.

(** C7, as stated, fails.  A new item arrives in two chunks.  The disk
    states the run passes through, newest first, show the final path with
    the first chunk only: an interrupt at that point leaves a partly
    written file at a final path. *)
Lemma interrupt_claim_counterexample :
  (λ d, (f_data <$> d.1 !! photo_path (item "a.jpg"), d.2)) <$>
    trail (run [(item "a.jpg", λ _, two_chunks "AA" "BB")] empty_state)
  = [(Some (bytes_of_string "AABB"), Some "a.jpg");
     (Some (bytes_of_string "AABB"), Some "");
     (Some (bytes_of_string "AABB"), None);
     (Some (bytes_of_string "AABB"), None);
     (Some (bytes_of_string "AA"), None);
     (Some (bytes_of_string ""), None)].
Proof. by vm_compute. Qed.


End Examples.

(** * Further properties of the helpers *)

Section Chunks.
Context `{Hasher}.

Lemma read_chunks_facts n : n ≠ 0%nat → ∀ fuel data,
  (length data ≤ fuel)%nat →
  concat (read_chunks fuel n data) = data ∧
  Forall (λ c, c ≠ [] ∧ (length c ≤ n)%nat) (read_chunks fuel n data).
Proof.
  intros Hn. induction fuel as [|fuel IH]; intros data Hlen.
  - destruct data; [by split|simpl in Hlen; lia].
  - destruct data as [|b data]; [by split|].
    cbn [read_chunks concat].
    destruct (IH (drop n (b :: data))) as [Hcat Hall].
    { rewrite length_drop. simpl in *. lia. }
    split.
    + by rewrite Hcat, take_drop.
    + constructor; [|done]. split.
      * destruct n; [done|]. done.
      * rewrite length_take. lia.
Qed.

(** X1: the reads of [calculate_file_hash] partition the file: put together
    again they are its bytes, and each read is non-empty and at most
    [chunk_size] long. *)
Theorem read_chunks_partition data :
  concat (read_chunks (length data) (N.to_nat chunk_size) data) = data ∧
  Forall (λ c, c ≠ [] ∧ (length c ≤ N.to_nat chunk_size)%nat)
         (read_chunks (length data) (N.to_nat chunk_size) data).
Proof. apply read_chunks_facts; [unfold chunk_size; lia|done]. Qed.


Lemma write_chunks_filter path now cs : ∀ h s,
  write_chunks path now (filter (λ c, c ≠ []) cs) h s = write_chunks path now cs h s.
Proof.
  induction cs as [|c cs IH]; intros h s; [done|].
  destruct c as [|b c].
  - rewrite filter_cons_False by (intros Hne; by apply Hne). cbn [write_chunks]. apply IH.
  - rewrite filter_cons_True by done.
    change (write_chunks path now ((b :: c) :: filter (λ c0, c0 ≠ []) cs) h s)
      with ((file_write path now (b :: c) >>
             write_chunks path now (filter (λ c0, c0 ≠ []) cs) (md5_update h (b :: c))) s).
    change (write_chunks path now ((b :: c) :: cs) h s)
      with ((file_write path now (b :: c) >>
             write_chunks path now cs (md5_update h (b :: c))) s).
    rewrite !bind_run. destruct (file_write path now (b :: c) s) as [[[]|e] s']; [|done].
    apply IH.
Qed.

(** X3: empty keep-alive chunks leave no trace: a download behaves as if
    the stream had not carried them, in its result and in every state. *)
Theorem download_ignores_keep_alive p path r s :
  download_file_with_progress p path (without_keep_alive r) s =
    download_file_with_progress p path r s.
Proof.
  unfold download_file_with_progress, without_keep_alive.
  cbn [chunks failure written_at].
  rewrite !bind_run.
  destruct (open_wb path (written_at r) s) as [[[]|e] s1]; [|done].
  rewrite !bind_run. by rewrite write_chunks_filter.
Qed.

(** X4: a download leaves at its path exactly the bytes received, replacing
    what was there, and touches no other path.  When the stream ends
    without error the digest returned is the digest of the file written:
    [calculate_file_hash] on that path gives the same value.  When the
    stream breaks, its error is raised and the bytes received so far stay
    in the file. *)
Theorem download_digest_is_digest_of_file p path r s :
  (∃ f', fs (download_file_with_progress p path r s).2 !! path = Some f' ∧
         f_data f' = payload r) ∧
  (∀ q, q ≠ path → fs (download_file_with_progress p path r s).2 !! q = fs s !! q) ∧
  (failure r = None →
     (download_file_with_progress p path r s).1 = Done (md5 (payload r)) ∧
     (calculate_file_hash path (download_file_with_progress p path r s).2).1
       = (download_file_with_progress p path r s).1) ∧
  (∀ e, failure r = Some e → (download_file_with_progress p path r s).1 = Raised e).
Proof.
  destruct (download_run p path r s) as (s' & Hrun & Hfs & _).
  rewrite Hrun. simpl. split_and!.
  - eexists. rewrite Hfs, lookup_insert_eq. by split.
  - intros q Hq. by rewrite Hfs, lookup_insert_ne.
  - intros ->. split; [done|].
    rewrite (calculate_file_hash_run path s' (landed (fs s !! path) (written_at r) (payload r))).
    + done.
    + by rewrite Hfs, lookup_insert_eq.
  - by intros e ->.
Qed.
End Chunks.

Section BackoffBounds.
Context `{Constants}.

(** X5: with a non-negative [INITIAL_WAIT] the backoff never exceeds
    [MAX_WAIT], never decreases from one attempt to a later one, is the
    doubled initial wait as long as that stays below the cap, and stays at
    the cap once it has reached it. *)
Theorem exponential_backoff_bounds n m :
  (0 ≤ INITIAL_WAIT)%Z →
  (n ≤ m)%nat →
  (exponential_backoff n ≤ MAX_WAIT)%Z ∧
  (exponential_backoff n ≤ exponential_backoff m)%Z ∧
  ((INITIAL_WAIT * 2 ^ Z.of_nat n ≤ MAX_WAIT)%Z →
     exponential_backoff n = (INITIAL_WAIT * 2 ^ Z.of_nat n)%Z) ∧
  ((MAX_WAIT ≤ INITIAL_WAIT * 2 ^ Z.of_nat n)%Z → exponential_backoff m = MAX_WAIT).
Proof.
  intros Hpos Hnm. unfold exponential_backoff.
  assert (INITIAL_WAIT * 2 ^ Z.of_nat n ≤ INITIAL_WAIT * 2 ^ Z.of_nat m)%Z as Hmono.
  { apply Z.mul_le_mono_nonneg_l; [done|]. apply Z.pow_le_mono_r; lia. }
  split_and!; lia.
Qed.
End BackoffBounds.

(** ** str.strip and the cursor file *)


Lemma string_app_assoc (a b c : string) : (a +:+ b) +:+ c = a +:+ (b +:+ c).
Proof.
  induction a as [|x a IH]; [done|].
  change (String x a +:+ b) with (String x (a +:+ b)).
  change (String x (a +:+ b) +:+ c) with (String x ((a +:+ b) +:+ c)).
  change (String x a +:+ (b +:+ c)) with (String x (a +:+ (b +:+ c))).
  by rewrite IH.
Qed.










(** ** More on reset_file_timestamp *)

Section TimestampMore.
Context `{Host}.

(** X7: [reset_file_timestamp] never raises.  On a missing file, or for a
    zone [pytz] does not know, it logs one error and leaves the store and
    the cursor file as they are. *)
Theorem reset_file_timestamp_is_not_fatal path ts tzname s :
  (reset_file_timestamp path ts tzname s).1 = Done tt ∧
  track_file (reset_file_timestamp path ts tzname s).2 = track_file s ∧
  (fs s !! path = None ∨ pytz_timezone tzname = None →
     fs (reset_file_timestamp path ts tzname s).2 = fs s ∧
     ∃ e, events (reset_file_timestamp path ts tzname s).2 =
            events s ++ [LogError ("Failed to set timestamps for " +:+ path +:+ ": " +:+ e)]).
Proof.
  destruct (reset_file_timestamp_run path ts tzname s) as (s' & Hrun & Htr & _).
  rewrite Hrun. simpl. split_and!; [done|done|].
  revert Hrun. unfold reset_file_timestamp, try_except, bind, lookup_timezone, os_utime,
    ret, raise, logging_error, modify.
  destruct (pytz_timezone tzname) as [tz|]; cbn beta iota.
  - destruct (fs s !! path) as [f|] eqn:Hf; cbn beta iota.
    + intros _ [?|?]; done.
    + intros [= <-] _. simpl. split; [done|]. by eexists.
  - intros [= <-] _. simpl. split; [done|]. by eexists.
Qed.

End TimestampMore.

(** ** The flat layout of [run.py] *)

Lemma join_download_directory (name : string) :
  os_path_join download_directory name =
    if is_absolute name then name else "downloaded_files/" +:+ name.
Proof.
  destruct name as [|a name]; [done|].
  destruct a as [[] [] [] [] [] [] [] []]; reflexivity.
Qed.

Lemma join_download_directory_inj (a b : string) :
  os_path_join download_directory a = os_path_join download_directory b → a = b.
Proof.
  rewrite !join_download_directory.
  destruct (is_absolute a) eqn:Ha, (is_absolute b) eqn:Hb; intros E.
  - done.
  - subst a. by vm_compute in Ha.
  - subst b. by vm_compute in Hb.
  - by apply (inj (String.app "downloaded_files/")) in E.
Qed.

Lemma join_download_directory_temp (name : string) :
  os_path_join download_directory (name +:+ ".temp") =
    os_path_join download_directory name +:+ ".temp".
Proof.
  rewrite !join_download_directory.
  destruct name as [|a name]; [done|].
  change (String a name +:+ ".temp") with (String a (name +:+ ".temp")).
  destruct (is_absolute (String a name)) eqn:Ha.
  - assert (is_absolute (String a (name +:+ ".temp")) = true) as ->; [|done].
    revert Ha. by destruct a as [[] [] [] [] [] [] [] []].
  - assert (is_absolute (String a (name +:+ ".temp")) = false) as ->.
    { revert Ha. by destruct a as [[] [] [] [] [] [] [] []]. }
    by rewrite string_app_assoc.
Qed.

(** X9: in the flat layout two items have the same path exactly when they
    have the same file name, and the path of one is the staging path of
    another exactly when its name is the other's name followed by [.temp].
    A name that starts with a slash is its own path: the file lands outside
    the download directory. *)
Theorem flat_layout_paths (p q : photo) :
  (@photo_path flat_layout p = @photo_path flat_layout q ↔ filename p = filename q) ∧
  (@photo_path flat_layout p = @photo_path flat_layout q +:+ ".temp" ↔
     filename p = filename q +:+ ".temp") ∧
  (is_absolute (filename p) = true → @photo_path flat_layout p = filename p) ∧
  (is_absolute (filename p) = false →
     @photo_path flat_layout p = "downloaded_files/" +:+ filename p).
Proof.
  simpl. split_and!.
  - split; [apply join_download_directory_inj|by intros ->].
  - rewrite <-join_download_directory_temp.
    split; [apply join_download_directory_inj|by intros ->].
  - intros Ha. by rewrite join_download_directory, Ha.
  - intros Ha. by rewrite join_download_directory, Ha.
Qed.

(** * Further properties of the engine *)

Section EngineMore.
Context `{Hasher} `{Host} `{Constants} `{Layout}.

Lemma rate_limit_state s :
  ∃ s', rate_limit s = (Done tt, s')
      ∧ fs s' = fs s
      ∧ track_file s' = track_file s
      ∧ requests_made s' =
          (if bool_decide (RATE_LIMIT ≤ requests_made s + 1)%Z then 0
           else requests_made s + 1)%Z
      ∧ sleeps (events s') =
          sleeps (events s) ++
          (if bool_decide (RATE_LIMIT ≤ requests_made s + 1)%Z && bool_decide (0 < TIME_WINDOW)%Z
           then [TIME_WINDOW] else []).
Proof.
  unfold rate_limit, bind, modify, gets, ret, logging_info, time_sleep.
  cbn beta iota. simpl.
  destruct (bool_decide (RATE_LIMIT ≤ requests_made s + 1)%Z);
    destruct (bool_decide (0 < TIME_WINDOW)%Z); eexists; simpl; split_and!; try done.
  all: unfold set_requests, emit; cbn [events].
  all: by rewrite ?sleeps_sleep, ?sleeps_log_info, ?(right_id_L [] (++)).
Qed.

Lemma reset_file_timestamp_on_file path ts tzname tz f s :
  fs s !! path = Some f →
  pytz_timezone tzname = Some tz →
  ∃ f', fs (reset_file_timestamp path ts tzname s).2 !! path = Some f'
      ∧ f_data f' = f_data f
      ∧ f_atime f' = declared_instant ts
      ∧ f_mtime f' = declared_instant ts.
Proof.
  intros Hf Htz.
  assert (dt_timestamp (astimezone (match tzinfo ts with
                                    | None => localize_utc ts
                                    | Some _ => ts
                                    end) tz) = declared_instant ts) as Ht.
  { rewrite timestamp_astimezone.
    unfold declared_instant, dt_timestamp, dt_utcoffset, localize_utc.
    destruct (tzinfo ts) eqn:E; simpl; [by rewrite E|lia]. }
  unfold reset_file_timestamp, try_except, bind, lookup_timezone, os_utime,
    set_birth_time, ret, raise, logging_error, modify.
  rewrite Htz. cbn beta iota. rewrite Hf. cbn beta iota. rewrite Ht.
  destruct platform_system; cbn beta iota.
  - simpl. rewrite lookup_insert_eq. by eexists.
  - destruct ctime_tool_runs; simpl; rewrite lookup_insert_eq;
      [simpl; rewrite lookup_insert_eq|]; by eexists.
  - destruct ctime_tool_runs; simpl; rewrite lookup_insert_eq;
      [simpl; rewrite lookup_insert_eq|]; by eexists.
Qed.

(** The steps after the [if], in full. *)
Lemma commit_tail_state path ts name s :
  ∃ s', (reset_file_timestamp path ts default_timezone >>
         save_last_downloaded name >> rate_limit) s = (Done tt, s')
      ∧ fs s' = fs (reset_file_timestamp path ts default_timezone s).2
      ∧ track_file s' = Some name
      ∧ requests_made s' =
          (if bool_decide (RATE_LIMIT ≤ requests_made s + 1)%Z then 0
           else requests_made s + 1)%Z
      ∧ sleeps (events s') =
          sleeps (events s) ++
          (if bool_decide (RATE_LIMIT ≤ requests_made s + 1)%Z && bool_decide (0 < TIME_WINDOW)%Z
           then [TIME_WINDOW] else []).
Proof.
  destruct (reset_file_timestamp_run path ts default_timezone s)
    as (s1 & Hrun1 & _ & Hrq1 & Hsl1 & _).
  set (s2 := set_track (Some name) (set_track (Some "") s1)).
  destruct (rate_limit_state s2) as (s3 & Hrun3 & Hfs3 & Htr3 & Hrq3 & Hsl3).
  exists s3. rewrite bind_run, Hrun1, bind_run.
  unfold save_last_downloaded at 1. rewrite bind_run. unfold modify at 1 2.
  fold s2. rewrite Hrun3. simpl. split_and!; try done.
  - rewrite Hrq3. unfold s2. simpl. by rewrite Hrq1.
  - rewrite Hsl3. unfold s2. simpl. by rewrite Hrq1, Hsl1.
Qed.



(** X11: an attempt on a local file that has the digest of the download,
    when the zone is known: the bytes of the file stay, its access and
    modification times become the declared timestamp, the staged copy is
    removed; the cursor file and the counter are not touched. *)
Theorem identical_item_state p r s f tz :
  fs s !! photo_path p = Some f →
  failure r = None →
  md5 (f_data f) = md5 (payload r) →
  pytz_timezone default_timezone = Some tz →
  (attempt_body p r s).1 = Done tt ∧
  (∃ f', fs (attempt_body p r s).2 !! photo_path p = Some f' ∧
         f_data f' = f_data f ∧
         f_atime f' = declared_instant (added_date p) ∧
         f_mtime f' = declared_instant (added_date p)) ∧
  fs (attempt_body p r s).2 !! (photo_path p +:+ ".temp") = None ∧
  track_file (attempt_body p r s).2 = track_file s ∧
  requests_made (attempt_body p r s).2 = requests_made s.
Proof.
  intros Hf He Heq Htz.
  assert (photo_path p +:+ ".temp" ≠ photo_path p) as Hne by apply temp_of_ne.
  destruct (attempt_up_to_date p r s f Hf He Heq)
    as (s' & Hrun & Htr & Hrq & _ & Htemp & _ & _ & _).
  assert (∃ f', fs s' !! photo_path p = Some f' ∧ f_data f' = f_data f ∧
            f_atime f' = declared_instant (added_date p) ∧
            f_mtime f' = declared_instant (added_date p)) as Hfile.
  { revert Hrun. unfold attempt_body. rewrite bind_run. unfold os_path_exists, gets.
    rewrite Hf. rewrite bool_decide_eq_true_2 by eauto.
    destruct (download_run p (photo_path p +:+ ".temp") r s)
      as (s1 & Hrun1 & Hfs1 & _).
    rewrite bind_run, bind_run, (calculate_file_hash_run _ _ _ Hf).
    rewrite bind_run, Hrun1, He.
    rewrite bool_decide_eq_true_2 by done.
    rewrite bind_run. unfold logging_info at 1, modify at 1.
    set (s1' := emit _ s1).
    assert (fs s1' !! photo_path p = Some f) as Hf1.
    { unfold s1'. simpl. by rewrite Hfs1, lookup_insert_ne. }
    destruct (reset_file_timestamp_on_file (photo_path p) (added_date p)
                default_timezone tz f s1' Hf1 Htz) as (f' & Hf' & Hd & Ha & Hm).
    destruct (reset_file_timestamp_run (photo_path p) (added_date p) default_timezone s1')
      as (s2 & Hrun2 & _ & _ & _ & Hfr2 & _).
    rewrite Hrun2 in Hf'. simpl in Hf'.
    rewrite bind_run, Hrun2, bind_run. unfold os_remove.
    rewrite Hfr2 by done. unfold s1' at 1. simpl. rewrite Hfs1, lookup_insert_eq.
    unfold ret. cbn beta iota. intros [= <-]. simpl.
    rewrite lookup_delete_ne by done. by exists f'. }
  rewrite Hrun. by split_and!.
Qed.
End EngineMore.

Section RunMore.
Context `{Hasher} `{Host} `{Constants} `{Layout}.



(** X14: a cursor that, once stripped, is the name of no listed item makes
    the run skip the whole listing: nothing is downloaded, the store and
    the cursor file stay, only the count of items is logged. *)
Theorem unmatched_cursor_skips_listing jobs c s :
  track_file s = Some c →
  (∀ job, job ∈ jobs → filename job.1 ≠ strip c) →
  process_photos jobs s = (Done tt, loop_start jobs s).
Proof.
  intros Htr Hno. rewrite process_photos_pending, Htr. simpl.
  rewrite pending_no_match; [done|].
  intros x Hx [= E]. by apply (Hno x).
Qed.


Lemma attempt_track p r s :
  track_file (attempt_body p r s).2 = track_file s ∨
  track_file (attempt_body p r s).2 = Some (filename p).
Proof.
  destruct (failure r) as [e|] eqn:He.
  - destruct (attempt_fail p r s e He) as (s' & Hrun & Htr & _).
    rewrite Hrun. by left.
  - destruct (fs s !! photo_path p) as [f|] eqn:Hf.
    + destruct (decide (md5 (f_data f) = md5 (payload r))) as [Heq|Hneq].
      * destruct (attempt_up_to_date p r s f Hf He Heq) as (s' & Hrun & Htr & _).
        rewrite Hrun. by left.
      * destruct (attempt_replace p r s f Hf He Hneq) as (s' & Hrun & Htr & _).
        rewrite Hrun. by right.
    + destruct (attempt_fresh_ok p r s Hf He) as (s' & Hrun & Htr & _).
      rewrite Hrun. by right.
Qed.

Lemma process_photo_track p net s :
  track_file (process_photo p net s).2 = track_file s ∨
  track_file (process_photo p net s).2 = Some (filename p).
Proof.
  destruct (retry_loop_rel (λ _, True)
              (λ a b, track_file b = track_file a ∨ track_file b = Some (filename p)) p net)
    with (fuel := MAX_RETRIES) (attempt := 0%nat) (s := s) as (_ & Htr & _); try done.
  - by left.
  - intros a b c [Hab|Hab] [Hbc|Hbc]; [left|right|right|right]; congruence.
  - by left.
  - intros n s0 _. split; [|done]. apply attempt_track.
Qed.

(** X16: the cursor file after a run has its content from before the run, or
    holds the name of a listed item. *)
Theorem cursor_after_run jobs s :
  track_file (run jobs s) = track_file s ∨
  ∃ job, job ∈ jobs ∧ track_file (run jobs s) = Some (filename job.1).
Proof.
  unfold run. rewrite process_photos_pending.
  set (last := strip <$> track_file s).
  set (todo := pending (bool_decide (last ≠ None)) last jobs).
  destruct (pending_suffix (bool_decide (last ≠ None)) last jobs) as [pre Hpre].
  fold todo in Hpre.
  destruct (sync_loop_rel (λ _, True)
              (λ a b, track_file b = track_file a ∨
                      ∃ job, job ∈ jobs ∧ track_file b = Some (filename job.1))
              last todo) with (s := loop_start jobs s) as (_ & Htr & _); try done.
  - by left.
  - intros a b c [Hab|Hab] [Hbc|Hbc]; [left; congruence| by right | |by right].
    destruct Hab as (job & Hin & Hab). right. exists job. split; [done|congruence].
  - intros p net s0 Hin _. split; [|done].
    destruct (process_photo_track p net s0) as [?|Htr]; [by left|].
    right. exists (p, net). split; [|done]. rewrite Hpre. apply elem_of_app. by right.
Qed.


End RunMore.

Section Pacing.
Context `{Hasher} `{Host} `{Constants} `{Layout}.

(** An attempt that commits counts one item, and pauses when the rate
    limit is reached. *)
Lemma committed_attempt_pacing p r s :
  failure r = None →
  (∀ f, fs s !! photo_path p = Some f → md5 (f_data f) ≠ md5 (payload r)) →
  ∃ s', attempt_body p r s = (Done tt, s') ∧
    requests_made s' =
      (if bool_decide (RATE_LIMIT ≤ requests_made s + 1)%Z then 0
       else requests_made s + 1)%Z ∧
    sleeps (events s') =
      sleeps (events s) ++
      (if bool_decide (RATE_LIMIT ≤ requests_made s + 1)%Z && bool_decide (0 < TIME_WINDOW)%Z
       then [TIME_WINDOW] else []).
Proof.
  intros He Hdiff.
  unfold attempt_body. rewrite bind_run. unfold os_path_exists, gets.
  destruct (fs s !! photo_path p) as [f|] eqn:Hf.
  - rewrite bool_decide_eq_true_2 by eauto.
    destruct (download_run p (photo_path p +:+ ".temp") r s)
      as (s1 & Hrun & Hfs & Htr & Hrq & Hev & _).
    rewrite bind_run, bind_run, (calculate_file_hash_run _ _ _ Hf).
    rewrite bind_run, Hrun, He.
    rewrite bool_decide_eq_false_2 by (by apply Hdiff).
    rewrite bind_run. unfold logging_info at 1, modify at 1.
    rewrite bind_run. unfold os_rename. simpl.
    rewrite Hfs, lookup_insert_eq. unfold ret at 1. cbn beta iota.
    set (s2 := set_fs _ _).
    destruct (commit_tail_state (photo_path p) (added_date p) (filename p) s2)
      as (s3 & Hrun3 & _ & _ & Hrq3 & Hsl3).
    exists s3. rewrite Hrun3. split; [done|]. rewrite Hrq3, Hsl3.
    unfold s2, set_fs, emit. cbn [requests_made events].
    by rewrite Hrq, Hev, sleeps_log_info.
  - rewrite bool_decide_eq_false_2 by (intros [? ?]; done).
    destruct (download_run p (photo_path p) r s) as (s1 & Hrun & Hfs & Htr & Hrq & Hev & _).
    rewrite bind_run, bind_run, Hrun, He. unfold ret at 1. cbn beta iota.
    destruct (commit_tail_state (photo_path p) (added_date p) (filename p) s1)
      as (s3 & Hrun3 & _ & _ & Hrq3 & Hsl3).
    exists s3. rewrite Hrun3. split; [done|]. by rewrite Hrq3, Hsl3, Hrq, Hev.
Qed.

(** What an attempt does to the counter and to the pauses: nothing when it
    fails or finds the local file up to date, one count (with the pause of
    the rate limit when it is reached) when it commits. *)
Lemma attempt_pacing p r s :
  (requests_made (attempt_body p r s).2 = requests_made s ∧
   sleeps (events (attempt_body p r s).2) = sleeps (events s)) ∨
  (requests_made (attempt_body p r s).2 =
     (if bool_decide (RATE_LIMIT ≤ requests_made s + 1)%Z then 0
      else requests_made s + 1)%Z ∧
   sleeps (events (attempt_body p r s).2) =
     sleeps (events s) ++
     (if bool_decide (RATE_LIMIT ≤ requests_made s + 1)%Z && bool_decide (0 < TIME_WINDOW)%Z
      then [TIME_WINDOW] else [])).
Proof.
  destruct (failure r) as [e|] eqn:He.
  { destruct (attempt_fail p r s e He) as (s' & Hrun & _ & Hrq & Hev & _).
    rewrite Hrun. simpl. left. by rewrite Hrq, Hev. }
  destruct (fs s !! photo_path p) as [f|] eqn:Hf.
  - destruct (decide (md5 (f_data f) = md5 (payload r))) as [Heq|Hneq].
    { destruct (attempt_up_to_date p r s f Hf He Heq) as (s' & Hrun & _ & Hrq & Hsl & _).
      rewrite Hrun. by left. }
    destruct (committed_attempt_pacing p r s He) as (s' & Hrun & Hrq & Hsl).
    { intros f0 Hf0. rewrite Hf in Hf0. by injection Hf0 as <-. }
    rewrite Hrun. by right.
  - destruct (committed_attempt_pacing p r s He) as (s' & Hrun & Hrq & Hsl).
    { intros f0 Hf0. by rewrite Hf in Hf0. }
    rewrite Hrun. by right.
Qed.

Lemma attempt_counter_in_range p r s :
  counter_in_range s → counter_in_range (attempt_body p r s).2.
Proof.
  unfold counter_in_range. intros Hs.
  destruct (attempt_pacing p r s) as [[-> _]|[-> _]]; [done|].
  case_bool_decide; lia.
Qed.

(** X18: the counter of the rate limit stays in range during a run: at the
    end of a run it is at least 0 and below [RATE_LIMIT] (it is 0 when
    [RATE_LIMIT] is 1 or less), whatever the listing and whatever it was
    before. *)
Theorem run_counter_in_range jobs s :
  (0 ≤ requests_made (run jobs s) < Z.max RATE_LIMIT 1)%Z.
Proof.
  unfold run. rewrite process_photos_pending.
  destruct (sync_loop_rel counter_in_range (λ _ _, True) (strip <$> track_file s)
              (pending (bool_decide (strip <$> track_file s ≠ None))
                       (strip <$> track_file s) jobs))
    with (s := loop_start jobs s) as (_ & _ & Hc); try done.
  - intros p net s0 _ Hs0. split; [done|].
    destruct (retry_loop_rel counter_in_range (λ _ _, True) p net)
      with (fuel := MAX_RETRIES) (attempt := 0%nat) (s := s0) as (_ & _ & Hc); try done.
    intros n s1 Hs1. split; [done|]. by apply attempt_counter_in_range.
  - unfold counter_in_range, loop_start. simpl. lia.
Qed.

Lemma pauses_added_refl s : pauses_added s s.
Proof. exists []. by rewrite (right_id_L [] (++)). Qed.

Lemma pauses_added_trans a b c : pauses_added a b → pauses_added b c → pauses_added a c.
Proof.
  intros (x & Hx & Fx) (y & Hy & Fy). exists (x ++ y). split.
  - by rewrite Hy, Hx, (assoc_L (++)).
  - by apply Forall_app.
Qed.

Lemma attempt_pauses p r s : pauses_added s (attempt_body p r s).2.
Proof.
  destruct (attempt_pacing p r s) as [[_ Hsl]|[_ Hsl]].
  - exists []. by rewrite (right_id_L [] (++)).
  - eexists. split; [exact Hsl|].
    case_bool_decide; [|by constructor].
    case_bool_decide; simpl; [|by constructor].
    constructor; [|by constructor]. by left.
Qed.

Lemma retry_loop_pauses p net : ∀ fuel attempt s,
  pauses_added s (retry_loop fuel attempt p net s).2.
Proof.
  induction fuel as [|fuel IH]; intros attempt s; [apply pauses_added_refl|].
  destruct (decide (attempt < MAX_RETRIES)%nat) as [Hlt|Hge];
    [|rewrite retry_loop_stop by done; apply pauses_added_refl].
  rewrite retry_loop_step by done.
  pose proof (attempt_pauses p (net attempt) s) as Ha.
  destruct (attempt_body p (net attempt) s) as [[[]|e] s']; simpl in Ha; [done|].
  case_bool_decide as Hnext.
  - eapply pauses_added_trans; [exact Ha|].
    eapply pauses_added_trans; [|apply IH].
    exists [exponential_backoff (S attempt)]. split.
    + unfold retrying, emit. cbn [events].
      by rewrite sleeps_sleep, sleeps_log_info, sleeps_log_error.
    + constructor; [|by constructor]. right. exists (S attempt). split; [lia|done].
  - eapply pauses_added_trans; [exact Ha|].
    exists []. split; [|by constructor].
    cbn [snd]. unfold given_up, emit. cbn [events].
    by rewrite !sleeps_log_error, (right_id_L [] (++)).
Qed.

(** X19: a run pauses only as scheduled: every pause it adds is the pause
    of the rate limit, [TIME_WINDOW] seconds and only when that is
    positive, or a wait of the backoff [exponential_backoff n] for an
    attempt [n] from 1 to [MAX_RETRIES - 1]. *)
Theorem run_pauses_are_scheduled jobs s :
  ∃ extra, sleeps (events (run jobs s)) = sleeps (events s) ++ extra ∧
           ∀ w, w ∈ extra →
             (w = TIME_WINDOW ∧ 0 < TIME_WINDOW)%Z ∨
             ∃ n, (1 ≤ n < MAX_RETRIES)%nat ∧ w = exponential_backoff n.
Proof.
  unfold run. rewrite process_photos_pending.
  destruct (sync_loop_rel (λ _, True) pauses_added (strip <$> track_file s)
              (pending (bool_decide (strip <$> track_file s ≠ None))
                       (strip <$> track_file s) jobs))
    with (s := loop_start jobs s) as (_ & (extra & Hsl & Hall) & _); try done.
  - apply pauses_added_refl.
  - apply pauses_added_trans.
  - intros p net s0 _ _. split; [|done]. apply retry_loop_pauses.
  - exists extra. split.
    + rewrite Hsl. unfold loop_start, set_requests, emit. cbn [events].
      by rewrite sleeps_log_info.
    + intros w Hw. by apply (proj1 (Forall_forall _ _) Hall).
Qed.

End Pacing.

(** * Authentication *)

Lemma login_try_bind_returned {A B} (m : Login A) (k : A → Login B) h t a t' :
  m t = (Returned a, t') →
  login_try (login_bind m k) h t = login_try (k a) h t'.
Proof. intros E. unfold login_try, login_bind. by rewrite E. Qed.

Lemma login_try_bind_excepted {A B} (m : Login A) (k : A → Login B) h t e t' :
  m t = (Excepted e, t') →
  login_try (login_bind m k) h t = h e t'.
Proof. intros E. unfold login_try, login_bind. by rewrite E. Qed.

Lemma login_bind_returned {A B} (m : Login A) (k : A → Login B) t b t2 :
  login_bind m k t = (Returned b, t2) →
  ∃ a t1, m t = (Returned a, t1) ∧ k a t1 = (Returned b, t2).
Proof.
  unfold login_bind. destruct (m t) as [[a|e|] t1]; [|done|done].
  intros E. by exists a, t1.
Qed.

Lemma respects_bind {A B} R (m : Login A) (k : A → Login B) :
  (∀ a b c, R a b → R b c → R a c) →
  respects R m → (∀ a, respects R (k a)) → respects R (login_bind m k).
Proof.
  intros Htrans Hm Hk t. specialize (Hm t). unfold login_bind.
  destruct (m t) as [[a|e|] t1]; [|done|done].
  eapply Htrans; [exact Hm|apply Hk].
Qed.

Lemma respects_try {A} R (m : Login A) h :
  (∀ a b c, R a b → R b c → R a c) →
  respects R m → (∀ e, respects R (h e)) → respects R (login_try m h).
Proof.
  intros Htrans Hm Hh t. specialize (Hm t). unfold login_try.
  destruct (m t) as [[a|e|] t1]; [done| |done].
  eapply Htrans; [exact Hm|apply Hh].
Qed.

Lemma exits_after_error_bind {A B} (m : Login A) (k : A → Login B) :
  exits_after_error m → (∀ a, exits_after_error (k a)) →
  exits_after_error (login_bind m k).
Proof.
  intros Hm Hk t. specialize (Hm t). unfold login_bind.
  destruct (m t) as [[a|e|] t1]; [apply Hk|done|].
  intros _. by apply Hm.
Qed.

Lemma exits_after_error_log_exit {A} msg :
  exits_after_error (A := A) (login_bind (log (LogError msg)) (λ _, sys_exit)).
Proof. intros t _. exists msg. apply last_snoc. Qed.

Lemma signed_in_refl t : signed_in t t.
Proof. split_and!; [done|done|]. intros q Hq. by left. Qed.

Lemma signed_in_trans a b c : signed_in a b → signed_in b c → signed_in a c.
Proof.
  intros (Hk1 & Hl1 & Ha1) (Hk2 & Hl2 & Ha2). split_and!; [congruence|congruence|].
  intros q Hq. destruct (Ha2 q Hq) as [Hb|?]; [by apply Ha1|by right].
Qed.

Section AuthenticationFacts.
Context `{Cloud}.

(** One step of the body that returns, under the [try]. *)
Ltac step tac := erewrite login_try_bind_returned; [|tac].

Lemma input_code_signed_in :
  respects signed_in
    (input "Enter the code you received on one of your approved devices: ").
Proof.
  intros t. unfold input.
  assert (signed_in t {| keyring := keyring t; stdin := tail (stdin t);
                         asked := asked t ++
                           ["Enter the code you received on one of your approved devices: "];
                         session_dir := session_dir t; logged := logged t;
                         logins := logins t |}) as Hs.
  { split_and!; [done|done|]. simpl. intros q Hq.
    apply elem_of_app in Hq as [?|Hq]; [by left|].
    right. by apply list_elem_of_singleton in Hq. }
  by destruct (stdin t).
Qed.

(** The steps of [authenticate] that follow the login. *)
Ltac after_login :=
  repeat first
    [ apply input_code_signed_in
    | apply respects_bind; [apply signed_in_trans| |intros ?]
    | match goal with |- respects _ (if ?b then _ else _) => destruct b end
    | match goal with |- respects _ (call ?r) =>
        intros ?; unfold call; destruct r; apply signed_in_refl end
    | match goal with |- respects _ (log _) =>
        intros ?; split_and!; [done|done|by left] end
    | match goal with |- respects _ (login_ret _) => intros ?; apply signed_in_refl end
    | match goal with |- respects _ sys_exit => intros ?; apply signed_in_refl end ].

(** Once the session object is there, the keyring and the record of logins
    stay, and only the code is asked for. *)
Lemma authenticate_after_login apple_id password
    (K : service → Login service) h t :
  (∀ icloud, respects signed_in (K icloud)) →
  (∀ e, respects signed_in (h e)) →
  keyring (login_try (login_bind (login apple_id password) K) h t).2 = keyring t ∧
  logins (login_try (login_bind (login apple_id password) K) h t).2
    = logins t ++ [(apple_id, password)] ∧
  ∀ q, q ∈ asked (login_try (login_bind (login apple_id password) K) h t).2 →
       q ∈ asked t ∨
       q = "Enter the code you received on one of your approved devices: ".
Proof.
  intros HK Hh.
  set (t1 := {| keyring := keyring t; stdin := stdin t; asked := asked t;
                session_dir := session_dir t; logged := logged t;
                logins := logins t ++ [(apple_id, password)] |}).
  destruct (PyiCloudService apple_id password) as [icloud|e] eqn:Hlogin.
  - rewrite (login_try_bind_returned _ _ _ _ icloud t1)
      by (unfold login, call; by rewrite Hlogin).
    destruct (respects_try signed_in (K icloud) h signed_in_trans (HK icloud) Hh t1)
      as (Hk & Hl & Ha).
    by rewrite Hk, Hl.
  - rewrite (login_try_bind_excepted _ _ _ _ e t1)
      by (unfold login, call; by rewrite Hlogin).
    destruct (Hh e t1) as (Hk & Hl & Ha). by rewrite Hk, Hl.
Qed.

(** X21: [authenticate] never lets an exception out: it returns a session,
    or it ends the program by [exit()], and then the last thing it has
    logged is an error. *)
Theorem authenticate_returns_or_exits c :
  (∃ icloud, (authenticate c).1 = Returned icloud) ∨
  ((authenticate c).1 = Exited ∧
   ∃ msg, last (logged (authenticate c).2) = Some (LogError msg)).
Proof.
  unfold authenticate.
  match goal with |- context [login_try ?m ?h c] => set (body := m); set (handler := h) end.
  assert (exits_after_error body) as Hbody.
  { unfold body.
    repeat first
      [ apply exits_after_error_log_exit
      | apply exits_after_error_bind; [|intros ?]
      | match goal with |- exits_after_error (if ?b then _ else _) => destruct b end
      | match goal with |- exits_after_error (call ?r) =>
          intros ?; unfold call; by destruct r end
      | match goal with |- exits_after_error (input _) =>
          intros t; unfold input; by destruct (stdin t) end
      | match goal with |- exits_after_error (login _ _) =>
          intros ?; unfold login, call; by destruct (PyiCloudService _ _) end
      | by intros ? ]. }
  specialize (Hbody c). unfold login_try.
  destruct (body c) as [[icloud|e|] t1]; simpl in Hbody |- *.
  - left. by exists icloud.
  - right. split; [done|]. eexists. apply last_snoc.
  - right. split; [done|]. by apply Hbody.
Qed.

(** X22: a session that [authenticate] returns has passed the checks: it is
    the object of the last login attempted, or, when that object asked for
    a second factor, the object after a code was validated with a true
    result; and it reports a trusted session. *)
Theorem authenticate_returns_checked_session c icloud :
  (authenticate c).1 = Returned icloud →
  ∃ apple_id password first,
    last (logins (authenticate c).2) = Some (apple_id, password) ∧
    PyiCloudService apple_id password = Done first ∧
    (requires_2fa first = Done false ∧ icloud = first ∨
     requires_2fa first = Done true ∧
     ∃ code, validate_2fa_code first code = Done (true, icloud)) ∧
    is_trusted_session icloud = Done true.
Proof.
  destruct (authenticate c) as [o t] eqn:Hrun. simpl. intros ->.
  unfold authenticate, login_try in Hrun.
  match type of Hrun with context [login_bind ?m ?k c] =>
    destruct (login_bind m k c) as [[ic|e|] t0] eqn:Hbody end;
    [|done|done].
  injection Hrun as -> ->.
  apply login_bind_returned in Hbody as (_ & t1 & _ & Hbody).
  apply login_bind_returned in Hbody as (apple_id & t2 & _ & Hbody).
  apply login_bind_returned in Hbody as (stored & t3 & _ & Hbody).
  apply login_bind_returned in Hbody as (password & t4 & _ & Hbody).
  apply login_bind_returned in Hbody as (first & t5 & Hlogin & Hbody).
  apply login_bind_returned in Hbody as ([] & t6 & Hlog6 & Hbody).
  apply login_bind_returned in Hbody as (needs_code & t7 & Hneeds & Hbody).
  apply login_bind_returned in Hbody as (second & t8 & Hsecond & Hbody).
  apply login_bind_returned in Hbody as ([] & t9 & Hlog9 & Hbody).
  apply login_bind_returned in Hbody as (trusted & t10 & Htrusted & Hbody).
  unfold login, call in Hlogin.
  destruct (PyiCloudService apple_id password) as [first'|] eqn:Hservice; [|done].
  injection Hlogin as E1 E2. subst first' t5.
  unfold call in Hneeds. destruct (requires_2fa first) as [needs|] eqn:H2fa; [|done].
  injection Hneeds as E1 E2. subst needs t7.
  unfold call in Htrusted.
  destruct (is_trusted_session second) as [tr|] eqn:Htr; [|done].
  injection Htrusted as E1 E2. subst tr t10.
  destruct trusted.
  2:{ apply login_bind_returned in Hbody as (_ & ? & _ & Hbody). done. }
  apply login_bind_returned in Hbody as ([] & t11 & Hlog11 & Hbody).
  injection Hbody as E1 E2. subst second t11.
  unfold log in Hlog6, Hlog9, Hlog11.
  injection Hlog11 as E1. injection Hlog9 as E2. injection Hlog6 as E3.
  subst t t9 t6. cbn [logins].
  assert (logins t8 = logins t4 ++ [(apple_id, password)] ∧
          (needs_code = false ∧ icloud = first ∨
           needs_code = true ∧ ∃ code, validate_2fa_code first code = Done (true, icloud)))
    as [Hlogins Hcode].
  { destruct needs_code.
    - apply login_bind_returned in Hsecond as ([] & t12 & Hlog12 & Hsecond).
      apply login_bind_returned in Hsecond as (code & t13 & Hcode & Hsecond).
      apply login_bind_returned in Hsecond as (validated & t14 & Hval & Hsecond).
      unfold call in Hval.
      destruct (validate_2fa_code first code) as [[result after]|] eqn:Hv; [|done].
      injection Hval as E1 E2. subst validated t14. simpl in Hsecond.
      destruct result.
      2:{ apply login_bind_returned in Hsecond as (_ & ? & _ & Hsecond). done. }
      apply login_bind_returned in Hsecond as ([] & t15 & Hlog15 & Hsecond).
      injection Hsecond as E1 E2. subst after t15.
      unfold log in Hlog12, Hlog15. injection Hlog15 as E1. injection Hlog12 as E2.
      subst t8 t12.
      split; [|right; split; [done|by exists code]].
      unfold input in Hcode. cbn [stdin] in Hcode.
      by destruct (stdin t4); injection Hcode as E1 E2; subst t13.
    - injection Hsecond as E1 E2. subst first t8. split; [done|by left]. }
  exists apple_id, password, first. split_and!; try done.
  - rewrite Hlogins. apply last_snoc.
  - destruct Hcode as [[-> ->]|[-> ?]]; [by left|by right].
Qed.

(** X23: when the keyring has no password for the account typed (or an
    empty one), the password typed next is stored in the keyring before
    the login is tried with it: it is there afterwards whatever the
    service answers, also when the login is refused. *)
Theorem typed_password_is_stored c apple_id password rest :
  stdin c = apple_id :: password :: rest →
  no_password (keyring c !! apple_id) = true →
  keyring (authenticate c).2 = <[apple_id := password]> (keyring c) ∧
  logins (authenticate c).2 = logins c ++ [(apple_id, password)].
Proof.
  intros Hin Hno. unfold authenticate.
  step ltac:(reflexivity).
  step ltac:(unfold input; cbn [stdin]; by rewrite Hin).
  step ltac:(reflexivity).
  cbn [keyring]. rewrite Hno.
  step ltac:(reflexivity).
  cbn [stdin keyring asked session_dir logged logins].
  match goal with |- context [login_try (login_bind (login ?a ?p) ?K) ?h ?t] =>
    destruct (authenticate_after_login a p K h t) as (Hk & Hl & _) end.
  - intros icloud. after_login.
  - intros e. after_login.
  - by rewrite Hk, Hl.
Qed.

(** X24: when the keyring has a password for the account typed, that
    password is used for the login and none is asked for: the keyring
    stays as it is, and the only other prompt that can follow is the one
    for the code. *)
Theorem stored_password_is_used c apple_id password rest :
  stdin c = apple_id :: rest →
  keyring c !! apple_id = Some password →
  password ≠ "" →
  keyring (authenticate c).2 = keyring c ∧
  logins (authenticate c).2 = logins c ++ [(apple_id, password)] ∧
  ∀ q, q ∈ asked (authenticate c).2 →
       q ∈ asked c ∨ q = "Enter the email for Apple ID: " ∨
       q = "Enter the code you received on one of your approved devices: ".
Proof.
  intros Hin Hstored Hne. unfold authenticate.
  step ltac:(reflexivity).
  step ltac:(unfold input; cbn [stdin]; by rewrite Hin).
  step ltac:(reflexivity).
  cbn [keyring]. rewrite Hstored. cbn [no_password default].
  rewrite bool_decide_eq_false_2 by done.
  step ltac:(reflexivity).
  cbn [stdin keyring asked session_dir logged logins].
  match goal with |- context [login_try (login_bind (login ?a ?p) ?K) ?h ?t] =>
    destruct (authenticate_after_login a p K h t) as (Hk & Hl & Ha) end.
  - intros icloud. after_login.
  - intros e. after_login.
  - rewrite Hk, Hl. split_and!; [done|done|].
    intros q Hq. destruct (Ha q Hq) as [Hq'|?]; [|by right; right].
    cbn [asked] in Hq'. apply elem_of_app in Hq' as [?|Hq']; [by left|].
    right; left. by apply list_elem_of_singleton in Hq'.
Qed.
End AuthenticationFacts.

(** * The other scripts *)

Section DownloaderFacts.
Context `{Host}.

(** X25: [reset_file_timestamp] of [icloud_downloader.py], on a file that
    exists: it does not raise, keeps the bytes and the creation time, and
    sets the access and modification times to the instant of the
    timestamp, a naive timestamp being read as local time.  On an aware
    timestamp that is the instant [run.py] sets; on a naive one the two
    differ by the local UTC offset. *)
Theorem downloader_reset_file_timestamp path ts f s :
  fs s !! path = Some f →
  (Downloader.reset_file_timestamp path ts s).1 = Done tt ∧
  ∃ f', fs (Downloader.reset_file_timestamp path ts s).2 !! path = Some f' ∧
        f_data f' = f_data f ∧
        f_birth f' = f_birth f ∧
        f_atime f' = f_mtime f' ∧
        f_mtime f' = (declared_instant ts -
                      match tzinfo ts with
                      | None => local_utcoffset (wall ts)
                      | Some _ => 0
                      end)%Z ∧
        ∀ tzname tz, pytz_timezone tzname = Some tz → is_Some (tzinfo ts) →
          ∃ g, fs (reset_file_timestamp path ts tzname s).2 !! path = Some g ∧
               f_atime g = f_atime f' ∧ f_mtime g = f_mtime f'.
Proof.
  intros Hf.
  unfold Downloader.reset_file_timestamp, try_except, os_utime. rewrite Hf.
  cbn [fst snd set_fs fs]. split; [done|].
  rewrite lookup_insert_eq. eexists. split; [done|]. cbn [f_data f_birth f_atime f_mtime].
  assert (dt_timestamp ts = (declared_instant ts -
                             match tzinfo ts with
                             | None => local_utcoffset (wall ts)
                             | Some _ => 0
                             end)%Z) as Ht.
  { unfold dt_timestamp, dt_utcoffset, declared_instant. destruct (tzinfo ts); lia. }
  split_and!; [done|done|done|done|].
  intros tzname tz Htz [off Hoff].
  destruct (reset_file_timestamp_on_file path ts tzname tz f s Hf Htz)
    as (g & Hg & _ & Ha & Hm).
  exists g. rewrite Ht, Hoff, Ha, Hm. split_and!; [done|lia|lia].
Qed.
End DownloaderFacts.

Lemma os_path_join_relative (a b : string) :
  is_absolute b = false →
  os_path_join a b =
    if bool_decide (a = "") || ends_with_slash a then a +:+ b else a +:+ "/" +:+ b.
Proof.
  destruct b as [|c b]; [done|].
  destruct c as [[] [] [] [] [] [] [] []]; done.
Qed.

Lemma ends_with_slash_app (a b : string) :
  b ≠ "" → ends_with_slash (a +:+ b) = ends_with_slash b.
Proof.
  intros Hb. induction a as [|c a IH]; [done|].
  change (String c a +:+ b) with (String c (a +:+ b)).
  cbn [ends_with_slash]. rewrite IH.
  destruct (a +:+ b) eqn:E; [|done].
  destruct a; [by simpl in E|done].
Qed.

Section YearMonth.
Context `{Host}.

(** X26: where [run_year_month.py] stores an item.  A file name that
    starts with a slash is the path itself: the file lands outside the
    download directory.  Otherwise, when [strftime] gives a year and a
    month that are not empty and carry no slash at either end, the path
    is [downloaded_files/<year>/<month>/<file name>]. *)
Theorem year_month_layout_paths (p : photo) :
  (is_absolute (filename p) = true →
     @photo_path year_month_layout p = filename p) ∧
  (is_absolute (filename p) = false →
   strftime (added_date p) "%Y" ≠ "" ∧ strftime (added_date p) "%m" ≠ "" →
   is_absolute (strftime (added_date p) "%Y") = false ∧
   is_absolute (strftime (added_date p) "%m") = false →
   ends_with_slash (strftime (added_date p) "%Y") = false ∧
   ends_with_slash (strftime (added_date p) "%m") = false →
     @photo_path year_month_layout p =
       "downloaded_files/" +:+ strftime (added_date p) "%Y" +:+ "/" +:+
       strftime (added_date p) "%m" +:+ "/" +:+ filename p).
Proof.
  cbn [photo_path year_month_layout]. unfold create_directory_for_photo.
  set (year := strftime (added_date p) "%Y").
  set (month := strftime (added_date p) "%m").
  split.
  - intros Ha. destruct (filename p) as [|c name]; [done|].
    destruct c as [[] [] [] [] [] [] [] []]; done.
  - intros Hname [Hy Hm] [Hay Ham] [Hsy Hsm].
    rewrite (os_path_join_relative _ (filename p)) by done.
    rewrite (os_path_join_relative _ month) by done.
    rewrite (os_path_join_relative _ year) by done.
    change (bool_decide (BASE_DOWNLOAD_DIRECTORY = "") ||
            ends_with_slash BASE_DOWNLOAD_DIRECTORY) with false.
    cbn iota.
    assert (ends_with_slash (BASE_DOWNLOAD_DIRECTORY +:+ "/" +:+ year) = false) as E1.
    { rewrite ends_with_slash_app; [|by destruct year].
      destruct year as [|c y]; [done|]. exact Hsy. }
    assert (BASE_DOWNLOAD_DIRECTORY +:+ "/" +:+ year ≠ "") as N1 by done.
    rewrite E1, (bool_decide_eq_false_2 _ N1). cbn [orb].
    assert (ends_with_slash ((BASE_DOWNLOAD_DIRECTORY +:+ "/" +:+ year) +:+ "/" +:+ month)
            = false) as E2.
    { rewrite ends_with_slash_app; [|by destruct month].
      destruct month as [|c m]; [done|]. exact Hsm. }
    rewrite E2, bool_decide_eq_false_2 by done.
    cbn [orb]. unfold BASE_DOWNLOAD_DIRECTORY.
    by rewrite !string_app_assoc.
Qed.
End YearMonth.

(** * The further properties on concrete runs *)

Section MoreExamples.
Local Existing Instance plain_hasher.
Local Existing Instance linux_host.
Local Existing Instance shipped_constants.
Local Existing Instance flat_layout.
Local Existing Instance sample_cloud.

(** The backoff of the scripts at the attempts 3 and 9. *)
Lemma exponential_backoff_bounds_witness :
  (exponential_backoff 3 ≤ MAX_WAIT)%Z ∧
  (exponential_backoff 3 ≤ exponential_backoff 9)%Z.
Proof.
  refine (let E := exponential_backoff_bounds (H := shipped_constants) 3 9 _ _ in
          conj (proj1 E) (proj1 (proj2 E))).
  - done.
  - lia.
Defined.



(** An item whose file is on disk with the remote content. *)
Lemma identical_item_state_witness :
  track_file (attempt_body (item "a.jpg") (complete "AAA")
                (disk_with [(photo_path (item "a.jpg"), stored "AAA")] None)).2 = None ∧
  requests_made (attempt_body (item "a.jpg") (complete "AAA")
                   (disk_with [(photo_path (item "a.jpg"), stored "AAA")] None)).2 = 0%Z.
Proof.
  refine (let E := identical_item_state (H := plain_hasher) (H0 := linux_host)
                     (H1 := shipped_constants) (H2 := flat_layout) (item "a.jpg") (complete "AAA")
                     (disk_with [(photo_path (item "a.jpg"), stored "AAA")] None)
                     (stored "AAA") (λ _, 0%Z) eq_refl eq_refl eq_refl eq_refl in
          conj (proj1 (proj2 (proj2 (proj2 E)))) (proj2 (proj2 (proj2 (proj2 E))))).
Defined.


(** A cursor that names no listed item. *)
Lemma unmatched_cursor_skips_listing_witness :
  process_photos [(item "a.jpg", λ _, complete "AAA")] (disk_with [] (Some "z.jpg"))
  = (Done tt, loop_start [(item "a.jpg", λ _ : nat, complete "AAA")]
                (disk_with [] (Some "z.jpg"))).
Proof.
  refine (unmatched_cursor_skips_listing [(item "a.jpg", λ _, complete "AAA")] "z.jpg"
            (disk_with [] (Some "z.jpg")) eq_refl _).
  intros job Hjob. apply list_elem_of_singleton in Hjob as ->. by vm_compute.
Defined.




(** A first login: the password is typed, then the code. *)
Lemma authenticate_returns_checked_session_witness :
  ∃ apple_id password first,
    last (logins (authenticate (fresh_terminal ["me@example.com"; "secret"; "123456"])).2)
      = Some (apple_id, password) ∧
    PyiCloudService apple_id password = Done first ∧
    (requires_2fa first = Done false ∧ true = first ∨
     requires_2fa first = Done true ∧
     ∃ code, validate_2fa_code first code = Done (true, true)) ∧
    is_trusted_session true = Done true.
Proof.
  refine (authenticate_returns_checked_session
            (fresh_terminal ["me@example.com"; "secret"; "123456"]) true _).
  by vm_compute.
Defined.

(** A password typed wrongly is in the keyring after the refused login. *)
Lemma typed_password_is_stored_witness :
  keyring (authenticate (fresh_terminal ["me@example.com"; "secert"])).2
    = {["me@example.com" := "secert"]} ∧
  logins (authenticate (fresh_terminal ["me@example.com"; "secert"])).2
    = [("me@example.com", "secert")].
Proof.
  refine (typed_password_is_stored (fresh_terminal ["me@example.com"; "secert"])
            "me@example.com" "secert" [] eq_refl _).
  by vm_compute.
Defined.

(** A later login: the password comes from the keyring. *)
Lemma stored_password_is_used_witness :
  logins (authenticate
            {| keyring := {["me@example.com" := "secret"]};
               stdin := ["me@example.com"; "123456"]; asked := []; session_dir := true;
               logged := []; logins := [] |}).2
    = [("me@example.com", "secret")].
Proof.
  refine (proj1 (proj2 (stored_password_is_used
            {| keyring := {["me@example.com" := "secret"]};
               stdin := ["me@example.com"; "123456"]; asked := []; session_dir := true;
               logged := []; logins := [] |}
            "me@example.com" "secret" ["123456"] eq_refl _ _))).
  - by vm_compute.
  - done.
Defined.

(** A naive timestamp, on a host one hour east of UTC. *)
Lemma downloader_reset_file_timestamp_witness :
  (@Downloader.reset_file_timestamp dated_host "f" {| wall := 3600000000; tzinfo := None |}
     (disk_with [("f", stored "AAA")] None)).1 = Done tt.
Proof.
  refine (proj1 (@downloader_reset_file_timestamp dated_host "f"
                   {| wall := 3600000000; tzinfo := None |} (stored "AAA")
                   (disk_with [("f", stored "AAA")] None) _)).
  by vm_compute.
Defined.

(** An item of May 2024. *)
Lemma year_month_layout_paths_witness :
  @photo_path (@year_month_layout dated_host) (item "a.jpg")
  = "downloaded_files/2024/05/a.jpg".
Proof.
  refine (proj2 (@year_month_layout_paths dated_host (item "a.jpg")) _ _ _ _);
    by vm_compute.
Defined.
End MoreExamples.
